(** * Hooper: a shallow embedding of the NBA prediction pipeline

    The development follows the four Python modules of the repository:
    [database.py] (store provisioning and import), [data_loader.py]
    (tables to frames), [model.py] (one-hot features, linear regression,
    score prediction) and [main.py] (the interactive driver).

    Conventions.
    - Python [int] is [Z]; Python [float] arithmetic is carried out over the
      exact rationals [Qc], so rounding is not modelled.
    - Python [str] is [string]; [str.strip] and [str.lower] are given for
      ASCII text.
    - A raised exception is a value [Raise e] of the type [result]; a call
      that returns [v] is [Ok v].
    - What lies outside the repository is a parameter: the remote provider
      is a record [Api] of responses, the least-squares solver behind
      [LinearRegression.fit] and the builtin [int] are section variables. *)

From stdpp Require Import gmap strings list sorting pretty.
From Stdlib Require Import Ascii QArith Qcanon.

Open Scope Z_scope.

(** ** Exceptions and results *)

(** The exception classes that occur.  [AttributeError], [ValueError],
    [IndexError], [EOFError], [HTTPError] and [OperationalError] are raised
    by the program or by the libraries it calls; [NotFittedError] is
    scikit-learn's own class, raised by an estimator used before [fit];
    [EmptyInputError] is the class the specification names for fitting on
    no data: no statement of the program raises it. *)
Inductive exn : Set :=
| AttributeError
| ValueError
| IndexError
| EOFError
| HTTPError
| OperationalError
| NotFittedError
| EmptyInputError.

Inductive result (A : Type) : Type :=
| Ok (a : A)
| Raise (e : exn).
Arguments Ok {A} a.
Arguments Raise {A} e.

(** [result] is an error monad; sequencing is written [x ← r; k]. *)
#[global] Instance result_ret : MRet result := fun A a => Ok a.
#[global] Instance result_bind : MBind result := fun A B k r =>
  match r with
  | Ok a => k a
  | Raise e => Raise e
  end.

#[global] Instance exn_eq_dec : EqDecision exn.
Proof. solve_decision. Defined.

(** ** database.py *)

Module Database.

(** Rows of the three tables, column by column.  Columns declared
    [NOT NULL] (and the primary keys) hold a value; the others are
    nullable. *)
Record TeamRow := mkTeam {
  team_id : Z;
  team_name : string;
  team_city : string }.

Record PlayerRow := mkPlayer {
  player_id : Z;
  player_name : string;
  player_team_id : option Z;
  player_position : option string }.

Record GameRow := mkGame {
  game_id : Z;
  game_date : string;
  home_team_id : option Z;
  away_team_id : option Z;
  home_score : option Z;
  away_score : option Z }.

#[global] Instance TeamRow_eq_dec : EqDecision TeamRow.
Proof. solve_decision. Defined.
#[global] Instance PlayerRow_eq_dec : EqDecision PlayerRow.
Proof. solve_decision. Defined.
#[global] Instance GameRow_eq_dec : EqDecision GameRow.
Proof. solve_decision. Defined.

(** The committed content of [nba.db]: each table in rowid order, and for
    each table its counter in [sqlite_sequence] (the largest rowid the
    table ever held; it survives [DELETE]). *)
Record Store := mkStore {
  Teams : list TeamRow;
  Players : list PlayerRow;
  Games : list GameRow;
  seq_Teams : Z;
  seq_Players : Z;
  seq_Games : Z }.

(** A table is kept in rowid order, which is the order [SELECT *] returns. *)
Fixpoint insert_row {A} (rowid : A -> Z) (r : A) (t : list A) : list A :=
  match t with
  | [] => [r]
  | r' :: t' =>
      if decide (rowid r < rowid r') then r :: t
      else r' :: insert_row rowid r t'
  end.

Definition max_rowid {A} (rowid : A -> Z) (t : list A) : Z :=
  foldr (fun r m => Z.max (rowid r) m) 0 t.

(** [INTEGER PRIMARY KEY AUTOINCREMENT] without an explicit id: one more
    than the largest rowid the table holds or ever held. *)
Definition next_rowid {A} (rowid : A -> Z) (seq : Z) (t : list A) : Z :=
  Z.max seq (max_rowid rowid t) + 1.

(** [create_tables]: [CREATE TABLE IF NOT EXISTS], three times.  [None] is
    a database file that does not hold the tables yet. *)
Definition empty_store : Store := mkStore [] [] [] 0 0 0.

Definition create_tables (db : option Store) : Store :=
  match db with
  | None => empty_store
  | Some s => s
  end.

(** [INSERT INTO Teams (name, city) VALUES (?, ?)] *)
Definition insert_team (v : string * string) (s : Store) : Store :=
  let i := next_rowid team_id (seq_Teams s) (Teams s) in
  mkStore (insert_row team_id (mkTeam i v.1 v.2) (Teams s))
          (Players s) (Games s) i (seq_Players s) (seq_Games s).

(** [INSERT INTO Players (name, team_id, position) VALUES (?, ?, ?)] *)
Definition insert_player (v : string * Z * string) (s : Store) : Store :=
  let i := next_rowid player_id (seq_Players s) (Players s) in
  mkStore (Teams s)
          (insert_row player_id
             (mkPlayer i v.1.1 (Some v.1.2) (Some v.2)) (Players s))
          (Games s) (seq_Teams s) i (seq_Games s).

(** [INSERT INTO Games (date, home_team_id, away_team_id, home_score,
    away_score) VALUES (?, ?, ?, ?, ?)] *)
Definition insert_game
    (date : string) (home away hs vs : option Z) (s : Store) : Store :=
  let i := next_rowid game_id (seq_Games s) (Games s) in
  mkStore (Teams s) (Players s)
          (insert_row game_id (mkGame i date home away hs vs) (Games s))
          (seq_Teams s) (seq_Players s) i.

(** [cursor.executemany(sql, rows)]: one execution per row, in order. *)
Definition executemany {A} (exec : A -> Store -> Store)
    (rows : list A) (s : Store) : Store :=
  foldl (fun s r => exec r s) s rows.

Definition seed_teams : list (string * string) :=
  [ ("Dragons", "Atlantis");
    ("Wolves", "Moon City");
    ("Sharks", "Coral Bay");
    ("Falcons", "Skyville") ]%string.

Definition seed_players : list (string * Z * string) :=
  [ ("Alex Storm", 1, "Guard");
    ("Blake Moon", 2, "Forward");
    ("Casey Wave", 3, "Center");
    ("Drew Sky", 4, "Guard");
    ("Eli Blaze", 1, "Forward");
    ("Finn Tide", 3, "Guard");
    ("Gale Hawk", 4, "Center");
    ("Harper Wolf", 2, "Center") ]%string.

Definition seed_games : list (string * Z * Z * Z * Z) :=
  [ ("2023-01-01", 1, 2, 102, 98);
    ("2023-01-02", 3, 4, 110, 105);
    ("2023-01-03", 1, 3, 99, 101);
    ("2023-01-04", 2, 4, 95, 100);
    ("2023-01-05", 4, 1, 108, 112);
    ("2023-01-06", 2, 3, 104, 107) ]%string.

(** [populate_tables]: the fictional data set. *)
Definition populate_tables (s : Store) : Store :=
  let s := executemany insert_team seed_teams s in
  let s := executemany insert_player seed_players s in
  executemany
    (fun '(d, h, a, hs, vs) =>
       insert_game d (Some h) (Some a) (Some hs) (Some vs))
    seed_games s.

(** *** The remote provider *)

(** A team object and a game object of the provider's JSON, with the keys
    the program reads.  A score may be [null]. *)
Record ApiTeam := mkApiTeam {
  api_id : Z;
  api_name : string;
  api_city : string }.

Record ApiGame := mkApiGame {
  api_date : string;
  api_home_team : ApiTeam;
  api_visitor_team : ApiTeam;
  api_home_team_score : option Z;
  api_visitor_team_score : option Z }.

(** The provider: what [GET teams] and [GET games?per_page=..&page=..]
    answer for a given [Authorization] header.  [Raise] stands for a request
    that [raise_for_status] (or the transport) turns into an exception;
    [Ok] carries the ['data'] member of the body. *)
Record Api := mkApi {
  get_teams : option string -> result (list ApiTeam);
  get_games : option string -> Z -> Z -> result (list ApiGame) }.

(** [{"Authorization": api_key} if api_key else {}] *)
Definition headers (api_key : option string) : option string :=
  match api_key with
  | Some k => if decide (k = ""%string) then None else Some k
  | None => None
  end.

Definition fetch_teams_from_api (api_key : option string) (api : Api)
  : result (list ApiTeam) :=
  get_teams api (headers api_key).

(** [l[:n]] for a Python list and an [int] *)
Definition slice_to {A} (n : Z) (l : list A) : list A :=
  if decide (0 <= n) then take (Z.to_nat n) l
  else take (length l - Z.to_nat (- n)) l.

Definition per_page : Z := 100.

(** The [while] loop of [fetch_games_from_api], from the state
    ([games], [page]).  It returns the outcome and the page numbers
    requested, in order.  Each round that goes on adds at least one game,
    so [num_games - len(games)] rounds are enough: [fuel] counts them.
    With that much fuel the case [O] is met only when the guard is false
    ([fetch_loop_while] gives the equation of the [while] statement,
    [fetch_loop_fuel] shows that more fuel changes nothing). *)
Fixpoint fetch_loop (api : Api) (hdr : option string) (num_games : Z)
    (fuel : nat) (games : list ApiGame) (page : Z)
  : result (list ApiGame) * list Z :=
  if decide (Z.of_nat (length games) < num_games) then
    match fuel with
    | O => (Ok games, [])
    | S fuel' =>
        match get_games api hdr per_page page with
        | Raise e => (Raise e, [page])
        | Ok [] => (Ok games, [page])
        | Ok data =>
            let r := fetch_loop api hdr num_games fuel'
                       (games ++ data) (page + 1) in
            (r.1, page :: r.2)
        end
    end
  else (Ok games, []).

(** [fetch_games_from_api], with the log of the pages it requested
    ([time.sleep] between requests has no effect on the result). *)
Definition fetch_games_from_api_log
    (num_games : Z) (api_key : option string) (api : Api)
  : result (list ApiGame) * list Z :=
  let r := fetch_loop api (headers api_key) num_games
             (Z.to_nat num_games) [] 1 in
  (games ← r.1; Ok (slice_to num_games games), r.2).

Definition fetch_games_from_api
    (num_games : Z) (api_key : option string) (api : Api)
  : result (list ApiGame) :=
  (fetch_games_from_api_log num_games api_key api).1.

(** The games of a page ([[]] for a request that raises), the number of
    games in the [k] pages from [page] on, and those games. *)
Definition page_data (api : Api) (hdr : option string) (page : Z)
  : list ApiGame :=
  match get_games api hdr per_page page with
  | Ok data => data
  | Raise _ => []
  end.

Fixpoint accumulated (api : Api) (hdr : option string) (page : Z) (k : nat)
  : nat :=
  match k with
  | O => 0
  | S k' => length (page_data api hdr page) + accumulated api hdr (page + 1) k'
  end.

Fixpoint pages_data (api : Api) (hdr : option string) (page : Z) (k : nat)
  : list ApiGame :=
  match k with
  | O => []
  | S k' => page_data api hdr page ++ pages_data api hdr (page + 1) k'
  end.

(** A page request that is answered with at least one game. *)
Definition nonempty_page (api : Api) (hdr : option string) (page : Z) : Prop :=
  exists data, get_games api hdr per_page page = Ok data /\ data <> [].

(** [DELETE FROM Teams], [DELETE FROM Games] *)
Definition delete_teams (s : Store) : Store :=
  mkStore [] (Players s) (Games s) (seq_Teams s) (seq_Players s) (seq_Games s).

Definition delete_games (s : Store) : Store :=
  mkStore (Teams s) (Players s) [] (seq_Teams s) (seq_Players s) (seq_Games s).

(** The row [(t['id'], t['name'], t['city'])]. *)
Definition team_row (t : ApiTeam) : TeamRow :=
  mkTeam (api_id t) (api_name t) (api_city t).

(** [INSERT OR IGNORE INTO Teams (id, name, city) VALUES (?, ?, ?)]: a row
    whose id is taken is skipped. *)
Definition insert_or_ignore_team (t : ApiTeam) (s : Store) : Store :=
  if decide (api_id t ∈ team_id <$> Teams s) then s
  else
    mkStore (insert_row team_id (team_row t) (Teams s))
            (Players s) (Games s)
            (Z.max (seq_Teams s) (api_id t)) (seq_Players s) (seq_Games s).

Definition has_scores (g : ApiGame) : bool :=
  bool_decide (api_home_team_score g <> None)
  && bool_decide (api_visitor_team_score g <> None).

(** The body of the [for g in games] loop. *)
Definition insert_api_game (g : ApiGame) (s : Store) : Store :=
  if has_scores g then
    insert_game (String.substring 0 10 (api_date g))
      (Some (api_id (api_home_team g)))
      (Some (api_id (api_visitor_team g)))
      (api_home_team_score g) (api_visitor_team_score g) s
  else s.

(** [populate_tables_from_api].  [Ok s'] is the store that [conn.commit()]
    writes; when a fetch raises, nothing is committed. *)
Definition populate_tables_from_api
    (s : Store) (num_games : Z) (api_key : option string) (api : Api)
  : result Store :=
  teams ← fetch_teams_from_api api_key api;
  let s := delete_teams s in
  let s := executemany insert_or_ignore_team teams s in
  games ← fetch_games_from_api num_games api_key api;
  let s := delete_games s in
  let s := executemany insert_api_game games s in
  Ok s.

(** [setup_database]: the content of the database file afterwards, and how
    the call ended. *)
Definition setup_database (db : option Store)
    (use_real_data : bool) (num_games : Z) (api_key : option string)
    (api : Api) : Store * result unit :=
  let s := create_tables db in
  if use_real_data then
    match populate_tables_from_api s num_games api_key api with
    | Ok s' => (s', Ok tt)
    | Raise e => (s, Raise e)
    end
  else (populate_tables s, Ok tt).

(** The stores that provisioning and imports lead to, over any number of
    runs and any answers of the provider. *)
Inductive reachable : Store -> Prop :=
| reachable_create : reachable (create_tables None)
| reachable_seed s :
    reachable s -> reachable (populate_tables s)
| reachable_api s num_games api_key api s' :
    reachable s ->
    populate_tables_from_api s num_games api_key api = Ok s' ->
    reachable s'.

(** A game row's team references resolve: each one that is present is the
    id of a row of [Teams]. *)
Definition resolves (s : Store) (ref : option Z) : Prop :=
  match ref with
  | Some i => exists t, t ∈ Teams s /\ team_id t = i
  | None => True
  end.

Definition references_resolve (s : Store) : Prop :=
  forall g, g ∈ Games s ->
    resolves s (home_team_id g) /\ resolves s (away_team_id g).

(** No game row lacks a team reference. *)
Definition references_present (s : Store) : Prop :=
  forall g, g ∈ Games s -> home_team_id g <> None /\ away_team_id g <> None.

(** The row that stores a fetched game. *)
Definition stored_as (g : ApiGame) (r : GameRow) : Prop :=
  game_date r = String.substring 0 10 (api_date g)
  /\ home_team_id r = Some (api_id (api_home_team g))
  /\ away_team_id r = Some (api_id (api_visitor_team g))
  /\ home_score r = api_home_team_score g
  /\ away_score r = api_visitor_team_score g.

(** A table has its rows in strictly increasing rowid order (so no rowid
    occurs twice) and none above the table's counter. *)
Definition keys_in_order {A} (rowid : A -> Z) (seq : Z) (t : list A) : Prop :=
  StronglySorted (fun a b => rowid a < rowid b) t
  /\ Forall (fun r => rowid r <= seq) t.

Definition well_keyed (s : Store) : Prop :=
  keys_in_order team_id (seq_Teams s) (Teams s)
  /\ keys_in_order player_id (seq_Players s) (Players s)
  /\ keys_in_order game_id (seq_Games s) (Games s).

(** A game row without a null, a player row without a null, and two game
    rows that agree in everything but the id. *)
Definition complete_game (g : GameRow) : Prop :=
  is_Some (home_team_id g) /\ is_Some (away_team_id g)
  /\ is_Some (home_score g) /\ is_Some (away_score g).

Definition complete_player (p : PlayerRow) : Prop :=
  is_Some (player_team_id p) /\ is_Some (player_position p).

Definition same_game (g1 g2 : GameRow) : Prop :=
  game_date g1 = game_date g2
  /\ home_team_id g1 = home_team_id g2
  /\ away_team_id g1 = away_team_id g2
  /\ home_score g1 = home_score g2
  /\ away_score g1 = away_score g2.

End Database.

(** ** data_loader.py *)

Module DataLoader.

(** A cell of the Players frame after [fillna('Unknown')]: the number read
    from the table, or the label put in its place. *)
Inductive cell : Set :=
| CInt (z : Z)
| CStr (s : string).

Record PlayerRec := mkPlayerRec {
  df_player_id : Z;
  df_player_name : string;
  df_player_team_id : cell;
  df_player_position : string }.

(** A row of the Games frame after [fillna(0)] and the integer coercion of
    the score columns. *)
Record GameRec := mkGameRec {
  df_id : Z;
  df_date : string;
  df_home_team_id : Z;
  df_away_team_id : Z;
  df_home_score : Z;
  df_away_score : Z }.

(** [load_data]: [SELECT *] on each table. *)
Definition load_data (s : Database.Store)
  : list Database.TeamRow * list Database.PlayerRow * list Database.GameRow :=
  (Database.Teams s, Database.Players s, Database.Games s).

(** [DataFrame.drop_duplicates()]: of equal rows the first stays. *)
Definition drop_duplicates {A} `{EqDecision A} (df : list A) : list A :=
  reverse (remove_dups (reverse df)).

Definition fillna_player (r : Database.PlayerRow) : PlayerRec :=
  mkPlayerRec (Database.player_id r) (Database.player_name r)
    (from_option CInt (CStr "Unknown") (Database.player_team_id r))
    (default "Unknown"%string (Database.player_position r)).

Definition fillna_game (r : Database.GameRow) : GameRec :=
  mkGameRec (Database.game_id r) (Database.game_date r)
    (default 0 (Database.home_team_id r))
    (default 0 (Database.away_team_id r))
    (default 0 (Database.home_score r))
    (default 0 (Database.away_score r)).

(** [preprocess_data].  The Teams columns are all [NOT NULL], so
    [fillna('Unknown')] leaves that frame as it is. *)
Definition preprocess_data
    (dfs : list Database.TeamRow * list Database.PlayerRow
           * list Database.GameRow)
  : list Database.TeamRow * list PlayerRec * list GameRec :=
  let '(teams_df, players_df, games_df) := dfs in
  (drop_duplicates teams_df,
   fillna_player <$> drop_duplicates players_df,
   fillna_game <$> drop_duplicates games_df).

End DataLoader.

(** ** model.py *)

Module Model.

(** *** pandas.get_dummies on the two identifier columns *)

(** The categories of a column of strings: its distinct values in
    increasing (code point) order. *)
Fixpoint insert_category (c : string) (cats : list string) : list string :=
  match cats with
  | [] => [c]
  | c' :: cats' =>
      if decide (c = c') then cats
      else if String.ltb c c' then c :: cats
      else c' :: insert_category c cats'
  end.

Definition categories (column : list string) : list string :=
  foldr insert_category [] column.

Definition indicator (b : bool) : Qc := if b then 1%Qc else 0%Qc.

(** A frame of numbers: its column labels and its rows. *)
Record Frame := mkFrame {
  columns : list string;
  values : list (list Qc) }.

Definition home_column (team : string) : string := "home_team_id_" +:+ team.
Definition away_column (team : string) : string := "away_team_id_" +:+ team.

Definition get_dummies (df : list (string * string)) : Frame :=
  let home_cats := categories (fst <$> df) in
  let away_cats := categories (snd <$> df) in
  mkFrame
    ((home_column <$> home_cats) ++ (away_column <$> away_cats))
    ((fun r =>
        ((fun c => indicator (bool_decide (r.1 = c))) <$> home_cats)
        ++ ((fun c => indicator (bool_decide (r.2 = c))) <$> away_cats))
     <$> df).

(** [prepare_features].  The identifier columns are integer columns (no
    import stores a game without its two teams), and [astype(str)] prints
    each identifier in decimal. *)
Definition prepare_features (games_df : list DataLoader.GameRec)
  : Frame * list Qc :=
  (get_dummies
     ((fun g => (pretty (DataLoader.df_home_team_id g),
                 pretty (DataLoader.df_away_team_id g))) <$> games_df),
   (fun g => Qc_of_Z (DataLoader.df_home_score g - DataLoader.df_away_score g))
   <$> games_df).

(** *** sklearn.linear_model.LinearRegression *)

(** What [fit] leaves in the estimator. *)
Record Fitted := mkFitted {
  coef_ : list Qc;
  intercept_ : Qc;
  n_features_in_ : nat }.

(** [None] is the estimator as constructed. *)
Definition LinearRegression := option Fitted.

Definition dot (xs ws : list Qc) : Qc :=
  foldr Qcplus 0%Qc (zip_with Qcmult xs ws).

(** [LinearRegression.predict] on one row.  The estimator has to be fitted
    ([check_is_fitted]), and input validation compares the row with the
    training frame: a row with another number of columns is refused with
    [ValueError].  (Later releases also compare the column labels; [predict]
    below only ever adds columns to the stored ones, in their order, so the
    labels differ exactly when the number does.) *)
Definition lr_predict (m : LinearRegression) (row : list Qc) : result Qc :=
  match m with
  | None => Raise NotFittedError
  | Some f =>
      if decide (length row = n_features_in_ f)
      then Ok (dot row (coef_ f) + intercept_ f)%Qc
      else Raise ValueError
  end.

(** *** Python dict with insertion order *)

Fixpoint dict_set {V} (d : list (string * V)) (k : string) (v : V)
  : list (string * V) :=
  match d with
  | [] => [(k, v)]
  | (k', v') :: d' =>
      if decide (k = k') then (k, v) :: d'
      else (k', v') :: dict_set d' k v
  end.

(** *** NBAPredictor *)

(** [feature_columns] is an attribute that only [fit] creates: [None] says
    that the object does not have it. *)
Record NBAPredictor := mkPredictor {
  model : LinearRegression;
  team_id_map : list (Z * Z);
  feature_columns : option (list string) }.

Definition __init__ : NBAPredictor := mkPredictor None [] None.

Section Solver.

(** The least-squares solver of [LinearRegression.fit]: from the training
    frame and the targets, the coefficients and the intercept. *)
Variable lstsq : list (list Qc) -> list Qc -> list Qc * Qc.

(** [LinearRegression.fit]: input validation refuses a frame without rows
    or without columns. *)
Definition lr_fit (X : Frame) (y : list Qc) : result Fitted :=
  if decide (length (values X) = 0%nat) then Raise ValueError
  else if decide (length (columns X) = 0%nat) then Raise ValueError
  else
    let '(coef, intercept) := lstsq (values X) y in
    Ok (mkFitted coef intercept (length (columns X))).

(** [fit].  When it raises, [self] is left as it was. *)
Definition fit (self : NBAPredictor) (games_df : list DataLoader.GameRec)
  : result NBAPredictor :=
  let '(X, y) := prepare_features games_df in
  f ← lr_fit X y;
  Ok (mkPredictor (Some f) (team_id_map self) (Some (columns X))).

End Solver.

(** [predict] *)
Definition predict (self : NBAPredictor) (home_team_id away_team_id : Z)
  : result Qc :=
  match feature_columns self with
  | None => Raise AttributeError
  | Some cols =>
      let data := foldl (fun d col => dict_set d col 0%Qc) [] cols in
      let data := dict_set data (home_column (pretty home_team_id)) 1%Qc in
      let data := dict_set data (away_column (pretty away_team_id)) 1%Qc in
      lr_predict (model self) (snd <$> data)
  end.

(** [predict_scores] *)
Definition predict_scores (self : NBAPredictor)
    (home_team_id away_team_id : Z) (avg_total : Qc) : result (Qc * Qc) :=
  diff ← predict self home_team_id away_team_id;
  let home_score := ((avg_total + diff) / 2)%Qc in
  let away_score := ((avg_total - diff) / 2)%Qc in
  Ok (home_score, away_score).

(** The identifiers seen at [fit] in each role, the columns that [fit]
    stores, and the row that [predict] hands to the estimator. *)
Definition home_ids (games_df : list DataLoader.GameRec) : list Z :=
  DataLoader.df_home_team_id <$> games_df.
Definition away_ids (games_df : list DataLoader.GameRec) : list Z :=
  DataLoader.df_away_team_id <$> games_df.

Definition columns_of (games_df : list DataLoader.GameRec) : list string :=
  columns (prepare_features games_df).1.

Definition prediction_row (cols : list string) (home away : Z) : list Qc :=
  (dict_set
     (dict_set (foldl (fun d col => dict_set d col 0%Qc) [] cols)
        (home_column (pretty home)) 1%Qc)
     (away_column (pretty away)) 1%Qc).*2.

(** Strings in strictly increasing order. *)
Definition increasing (l : list string) : Prop :=
  StronglySorted (fun a b => String.ltb a b = true) l.

(** The sum of the entries of a row. *)
Definition row_sum (row : list Qc) : Qc := foldr Qcplus 0%Qc row.

(** The coefficient that the estimator holds for a column: the entry of
    [coef_] at the position of the column ([0] for a label that is no
    column). *)
Fixpoint coefficient (cols : list string) (coef : list Qc) (col : string)
  : Qc :=
  match cols, coef with
  | c :: cols', w :: coef' =>
      if decide (c = col) then w else coefficient cols' coef' col
  | _, _ => 0%Qc
  end.

End Model.

(** ** main.py *)

Module Main.

(** What the driver acts on: the lines waiting on standard input, the lines
    written so far, and the database file. *)
Record World := mkWorld {
  stdin : list string;
  stdout : list string;
  db : option Database.Store }.

(** A command of the driver: it ends with a value or an exception, in a new
    world. *)
Definition IO (A : Type) : Type := World -> result A * World.

#[global] Instance IO_ret : MRet IO := fun A a w => (Ok a, w).
#[global] Instance IO_bind : MBind IO := fun A B k m w =>
  match m w with
  | (Ok a, w') => k a w'
  | (Raise e, w') => (Raise e, w')
  end.

Definition print (line : string) : IO unit := fun w =>
  (Ok tt, mkWorld (stdin w) (stdout w ++ [line]) (db w)).

(** [input(prompt)]: the prompt is written, a line is read; at the end of
    the input [EOFError] is raised. *)
Definition input (prompt : string) : IO string := fun w =>
  let out := stdout w ++ [prompt] in
  match stdin w with
  | [] => (Raise EOFError, mkWorld [] out (db w))
  | line :: rest => (Ok line, mkWorld rest out (db w))
  end.

(** A computation that does not touch the world. *)
Definition lift {A} (r : result A) : IO A := fun w => (r, w).

(** [try: body  except Exception: handler] *)
Definition try_except {A} (body handler : IO A) : IO A := fun w =>
  match body w with
  | (Ok a, w') => (Ok a, w')
  | (Raise _, w') => handler w'
  end.

(** [str.strip] and [str.lower], on ASCII. *)
Definition is_space (a : ascii) : bool :=
  let n := nat_of_ascii a in
  ((9 <=? n) && (n <=? 13) || (28 <=? n) && (n <=? 32))%nat.

Fixpoint lstrip (s : string) : string :=
  match s with
  | String a s' => if is_space a then lstrip s' else s
  | EmptyString => EmptyString
  end.

Definition strip (s : string) : string :=
  String.rev (lstrip (String.rev (lstrip s))).

Definition lower_ascii (a : ascii) : ascii :=
  let n := nat_of_ascii a in
  if ((65 <=? n) && (n <=? 90))%nat then ascii_of_nat (n + 32) else a.

Fixpoint lower (s : string) : string :=
  match s with
  | String a s' => String (lower_ascii a) (lower s')
  | EmptyString => EmptyString
  end.

(** [set(games_df['home_team_id']).union(set(games_df['away_team_id']))] *)
Definition valid_team_ids (games_df : list DataLoader.GameRec) : gset Z :=
  list_to_set (DataLoader.df_home_team_id <$> games_df)
  ∪ list_to_set (DataLoader.df_away_team_id <$> games_df).

(** [teams_df[teams_df['id'].isin(valid_team_ids)]] *)
Definition valid_teams_df (teams_df : list Database.TeamRow)
    (ids : gset Z) : list Database.TeamRow :=
  filter (fun t => Database.team_id t ∈ ids) teams_df.

Definition roster_line (t : Database.TeamRow) : string :=
  pretty (Database.team_id t) +:+ ": " +:+ Database.team_city t
  +:+ " " +:+ Database.team_name t.

(** [np.mean(games_df['home_score'] + games_df['away_score'])] *)
Definition mean_total (games_df : list DataLoader.GameRec) : Qc :=
  (foldr Qcplus 0
     ((fun g => Qc_of_Z (DataLoader.df_home_score g
                         + DataLoader.df_away_score g)) <$> games_df)
   / Qc_of_Z (Z.of_nat (length games_df)))%Qc.

(** What the driver holds once the roster is printed, and what it holds
    when the matchup loop starts. *)
Record Roster := mkRoster {
  roster_valid_team_ids : gset Z;
  roster_valid_teams_df : list Database.TeamRow;
  roster_games_df : list DataLoader.GameRec }.

Record Session := mkSession {
  session_valid_team_ids : gset Z;
  session_valid_teams_df : list Database.TeamRow;
  session_predictor : Model.NBAPredictor;
  session_avg_total : Qc }.

(** How one round of the matchup loop ends once both identifiers are read. *)
Inductive outcome : Type :=
| SameTeams
| InvalidTeamIds
| Predicted (home_name : string) (home_score : Qc)
            (away_name : string) (away_score : Qc)
| Failed (e : exn).

Section Driver.

(** The builtin [int] on a string, and the remote provider. *)
Variable py_int : string -> result Z.
Variable api : Database.Api.
Variable lstsq : list (list Qc) -> list Qc -> list Qc * Qc.

(** Lines 12 to 25 of [main]: the choice of the data source, and in real
    mode the game count and the credential. *)
Definition read_options : IO (bool * Z * option string) :=
  _ ← print "NBA Prediction Program";
  _ ← print "Would you like to use real NBA data (from balldontlie API) or fictional data?";
  choice ← input "Type 'real' for real NBA data, or anything else for fictional: ";
  let use_real := bool_decide (lower (strip choice) = "real"%string) in
  if use_real then
    num_games ← try_except
      (answer ← input "How many recent games to fetch? (e.g., 100): ";
       lift (py_int (strip answer)))
      (mret 100);
    api_key ← input "If you have a balldontlie API key, enter it here (or press Enter to skip): ";
    let api_key := strip api_key in
    mret (use_real, num_games,
          if decide (api_key = ""%string) then None else Some api_key)
  else mret (use_real, 100, None).

(** [setup_database] as a command on the database file. *)
Definition setup_database
    (use_real : bool) (num_games : Z) (api_key : option string) : IO unit :=
  fun w =>
    let r := Database.setup_database (db w) use_real num_games api_key api in
    (r.2, mkWorld (stdin w) (stdout w) (Some r.1)).

(** [load_data] on the database file; without the tables the first
    [SELECT] raises. *)
Definition load_data : IO (list Database.TeamRow * list Database.PlayerRow
                           * list Database.GameRow) :=
  fun w =>
    match db w with
    | Some s => (Ok (DataLoader.load_data s), w)
    | None => (Raise OperationalError, w)
    end.

(** Lines 26 to 37 of [main]: provisioning, loading, and the roster. *)
Definition load_roster (options : bool * Z * option string) : IO Roster :=
  let '(use_real, num_games, api_key) := options in
  _ ← print "Setting up database and loading data...";
  _ ← setup_database use_real num_games api_key;
  dfs ← load_data;
  let '(teams_df, players_df, games_df) := DataLoader.preprocess_data dfs in
  let ids := valid_team_ids games_df in
  let roster := valid_teams_df teams_df ids in
  _ ← print "
Teams (only those present in the games data):";
  _ ← foldr (fun t k => _ ← print (roster_line t); k) (mret tt) roster;
  mret (mkRoster ids roster games_df).

(** Lines 39 to 43 of [main]: the predictor and the average total. *)
Definition prepare (options : bool * Z * option string) : IO Session :=
  r ← load_roster options;
  predictor ← lift (Model.fit lstsq Model.__init__ (roster_games_df r));
  mret (mkSession (roster_valid_team_ids r) (roster_valid_teams_df r)
          predictor (mean_total (roster_games_df r))).

(** The [try] block of the matchup loop, for the two lines read. *)
Definition matchup (s : Session) (home_id away_id : string) : outcome :=
  match py_int home_id, py_int away_id with
  | Raise e, _ => Failed e
  | Ok _, Raise e => Failed e
  | Ok home_id, Ok away_id =>
      if decide (home_id = away_id) then SameTeams
      else if decide (home_id ∉ session_valid_team_ids s
                      \/ away_id ∉ session_valid_team_ids s)
      then InvalidTeamIds
      else
        match Model.predict_scores (session_predictor s) home_id away_id
                (session_avg_total s) with
        | Raise e => Failed e
        | Ok (home_score, away_score) =>
            let name_of i :=
              head (Database.team_name <$>
                    filter (fun t => Database.team_id t = i)
                      (session_valid_teams_df s)) in
            match name_of home_id, name_of away_id with
            | Some hn, Some an => Predicted hn home_score an away_score
            | _, _ => Failed IndexError
            end
        end
  end.

End Driver.

(** A reading of the builtin [int] for ASCII decimal numerals: blanks
    around, an optional sign, digits, single underscores between digits. *)
Definition digit_of (a : ascii) : option Z :=
  let n := nat_of_ascii a in
  if ((48 <=? n) && (n <=? 57))%nat then Some (Z.of_nat (n - 48)) else None.

Fixpoint digits_value (acc : Z) (after_digit : bool) (s : string)
  : option Z :=
  match s with
  | EmptyString => if after_digit then Some acc else None
  | String a s' =>
      match digit_of a with
      | Some d => digits_value (10 * acc + d) true s'
      | None =>
          if after_digit && bool_decide (a = "_"%char)
          then digits_value acc false s'
          else None
      end
  end.

Definition int_of_numeral (s : string) : result Z :=
  let parsed :=
    match strip s with
    | String "-" s' => Z.opp <$> digits_value 0 false s'
    | String "+" s' => digits_value 0 false s'
    | s' => digits_value 0 false s'
    end in
  match parsed with
  | Some n => Ok n
  | None => Raise ValueError
  end.

(** *** The matchup loop and the whole of [main] *)

Section Program.

(** Besides [int], the provider and the solver: the rendering of a score by
    the format [.1f], and the text of an exception. *)
Variable py_int : string -> result Z.
Variable api : Database.Api.
Variable lstsq : list (list Qc) -> list Qc -> list Qc * Qc.
Variable format_1f : Qc -> string.
Variable str_exn : exn -> string.

(** [try: body  except Exception as e: handler(e)] *)
Definition try_except_as {A} (body : IO A) (handler : exn -> IO A) : IO A :=
  fun w =>
    match body w with
    | (Ok a, w') => (Ok a, w')
    | (Raise e, w') => handler e w'
    end.

(** [valid_teams_df.loc[valid_teams_df['id'] == i, 'name'].values[0]] *)
Definition team_name_of (s : Session) (i : Z) : result string :=
  match head (Database.team_name <$>
              filter (fun t => Database.team_id t = i)
                (session_valid_teams_df s)) with
  | Some name => Ok name
  | None => Raise IndexError
  end.

(** Lines 53 to 67 of [main]: the [try] statement of one round, for the two
    stripped lines. *)
Definition matchup_round (s : Session) (home_id away_id : string) : IO unit :=
  try_except_as
    (home_id ← lift (py_int home_id);
     away_id ← lift (py_int away_id);
     if decide (home_id = away_id) then print "Teams must be different!"
     else if decide (home_id ∉ session_valid_team_ids s
                     \/ away_id ∉ session_valid_team_ids s)
     then print "Invalid team IDs. Please select from the teams listed above."
     else
       scores ← lift (Model.predict_scores (session_predictor s)
                        home_id away_id (session_avg_total s));
       _ ← print "
Predicted Final Score:";
       home_name ← lift (team_name_of s home_id);
       _ ← print (home_name +:+ ": " +:+ format_1f scores.1);
       away_name ← lift (team_name_of s away_id);
       print (away_name +:+ ": " +:+ format_1f scores.2))
    (fun e =>
       print ("Error: " +:+ str_exn e
              +:+ ". Please enter valid numeric team IDs.")).

(** Lines 45 to 67 of [main]: the [while True] loop.  A round reads a line
    or raises [EOFError], so the loop makes at most one round more than
    there are lines waiting: [fuel] counts the rounds
    ([matchup_loop_fuel] shows that more fuel changes nothing). *)
Fixpoint matchup_loop (fuel : nat) (s : Session) : IO unit :=
  match fuel with
  | O => mret tt
  | S fuel' =>
      _ ← print "
Enter the IDs of two teams to simulate a matchup (or 'q' to quit):";
      home_id ← input "Home team ID: ";
      let home_id := strip home_id in
      if decide (lower home_id = "q"%string) then mret tt
      else
        away_id ← input "Away team ID: ";
        let away_id := strip away_id in
        if decide (lower away_id = "q"%string) then mret tt
        else
          _ ← matchup_round s home_id away_id;
          matchup_loop fuel' s
  end.

Definition main_loop (s : Session) : IO unit :=
  fun w => matchup_loop (S (length (stdin w))) s w.

(** [main] *)
Definition main : IO unit :=
  options ← read_options py_int;
  session ← prepare api lstsq options;
  main_loop session.

End Program.

(** The three lines that open a round of the loop. *)
Definition round_banner : string := "
Enter the IDs of two teams to simulate a matchup (or 'q' to quit):".
Definition home_prompt : string := "Home team ID: ".
Definition away_prompt : string := "Away team ID: ".

(** The lines that open the roster, and the lines of a round. *)
Definition setup_line : string := "Setting up database and loading data...".
Definition roster_header : string := "
Teams (only those present in the games data):".
Definition score_header : string := "
Predicted Final Score:".
Definition score_line (name score : string) : string :=
  name +:+ ": " +:+ score.
Definition error_line (e : string) : string :=
  "Error: " +:+ e +:+ ". Please enter valid numeric team IDs.".

End Main.

(** ** Sample data *)

Module Samples.
Import Database.

(** One game, team 1 at home against team 2. *)
Definition one_game : list DataLoader.GameRec :=
  [DataLoader.mkGameRec 1 "2023-01-01" 1 2 102 98].

Definition hawks : ApiTeam := mkApiTeam 1 "Hawks" "Atlanta".
Definition celtics : ApiTeam := mkApiTeam 2 "Celtics" "Boston".

Definition played : ApiGame :=
  mkApiGame "2024-01-01T00:00:00.000Z" hawks celtics (Some 110) (Some 99).
Definition scheduled : ApiGame :=
  mkApiGame "2024-01-02T00:00:00.000Z" celtics hawks None None.

Definition games_pages (page : Z) : result (list ApiGame) :=
  if decide (page = 1) then Ok [played; scheduled]
  else if decide (page = 2) then Ok [played]
  else Ok [].

(** A provider whose games are played between the teams it lists. *)
Definition provider : Api :=
  mkApi (fun _ => Ok [hawks; celtics]) (fun _ _ page => games_pages page).

(** A provider that lists no team but reports a game. *)
Definition provider_without_teams : Api :=
  mkApi (fun _ => Ok []) (fun _ _ page => games_pages page).

(** A provider whose team ids are not among 1 to 4. *)
Definition lakers : ApiTeam := mkApiTeam 14 "Lakers" "Los Angeles".
Definition knicks : ApiTeam := mkApiTeam 20 "Knicks" "New York".

Definition provider_other_ids : Api :=
  mkApi (fun _ => Ok [lakers; knicks])
        (fun _ _ page =>
           if decide (page = 1)
           then Ok [mkApiGame "2024-01-03" lakers knicks (Some 101) (Some 97)]
           else Ok []).

(** A provider whose second page of games fails. *)
Definition provider_failing : Api :=
  mkApi (fun _ => Ok [hawks; celtics])
        (fun _ _ page =>
           if decide (page = 1) then Ok [played; scheduled]
           else Raise HTTPError).

(** To run the driver on: a solver that fits the constant model (every
    coefficient 0, the intercept the first target), a rendering of a score
    by its whole part, and a text for each exception. *)
Definition constant_solver (X : list (list Qc)) (y : list Qc)
  : list Qc * Qc :=
  ((fun _ => 0%Qc) <$> default [] (head X), default 0%Qc (head y)).

Definition whole_part (q : Qc) : string :=
  pretty (Qnum (this q) / Z.pos (Qden (this q)))%Z.

(** A session as [prepare] builds it from one game, with a roster. *)
Definition one_game_session (teams : list TeamRow) (p : Model.NBAPredictor)
  : Main.Session :=
  Main.mkSession (Main.valid_team_ids one_game) teams p (Qc_of_Z 200).

Definition one_game_roster : list TeamRow :=
  [mkTeam 1 "Dragons" "Atlantis"; mkTeam 2 "Wolves" "Moon City"].

Definition exn_text (e : exn) : string :=
  match e with
  | AttributeError => "AttributeError"
  | ValueError => "ValueError"
  | IndexError => "IndexError"
  | EOFError => "EOFError"
  | HTTPError => "HTTPError"
  | OperationalError => "OperationalError"
  | NotFittedError => "NotFittedError"
  | EmptyInputError => "EmptyInputError"
  end.

End Samples.

(** * Properties *)

(** ** The error monad *)

Lemma bind_Ok_inv {A B} (r : result A) (k : A -> result B) b :
  r ≫= k = Ok b -> exists a, r = Ok a /\ k a = Ok b.
Proof. destruct r as [a|e]; cbn; [eauto | done]. Qed.

(** ** Lists related element by element *)

Section Pairwise.
Context {A B : Type} (P : A -> B -> Prop).

Lemma Forall2_elem_of_l l k x :
  Forall2 P l k -> x ∈ l -> exists y, y ∈ k /\ P x y.
Proof.
  induction 1 as [|x' y' l k Hxy _ IH]; intros Hx.
  - by apply elem_of_nil in Hx.
  - apply elem_of_cons in Hx as [->|Hx].
    + exists y'. split; [left | done].
    + destruct (IH Hx) as (y & Hy & HP). exists y. split; [by right | done].
Qed.

Lemma Forall2_elem_of_r l k y :
  Forall2 P l k -> y ∈ k -> exists x, x ∈ l /\ P x y.
Proof.
  induction 1 as [|x' y' l k Hxy _ IH]; intros Hy.
  - by apply elem_of_nil in Hy.
  - apply elem_of_cons in Hy as [->|Hy].
    + exists x'. split; [left | done].
    + destruct (IH Hy) as (x & Hx & HP). exists x. split; [by right | done].
Qed.

End Pairwise.

(** ** Strings in code point order *)

Section StringOrder.

Lemma compare_refl (a : string) : String.compare a a = Eq.
Proof.
  pose proof (String.compare_antisym a a) as H.
  destruct (String.compare a a); simpl in H; congruence.
Qed.

Lemma ltb_le (a b : string) : String.ltb a b = true -> String.le a b.
Proof.
  unfold String.le, String.leb, String.ltb.
  by destruct (String.compare a b).
Qed.

Lemma ltb_ne (a b : string) : String.ltb a b = true -> a <> b.
Proof.
  intros H ->. unfold String.ltb in H. by rewrite compare_refl in H.
Qed.

Lemma le_ne_ltb (a b : string) : String.le a b -> a <> b -> String.ltb a b = true.
Proof.
  unfold String.le, String.leb, String.ltb. intros Hle Hne.
  destruct (String.compare a b) eqn:E; try done.
  by apply String.compare_eq_iff in E.
Qed.

Lemma ltb_trans (a b c : string) :
  String.ltb a b = true -> String.ltb b c = true -> String.ltb a c = true.
Proof.
  intros Hab Hbc. apply le_ne_ltb.
  - trans b; by apply ltb_le.
  - intros ->. apply (ltb_ne _ _ Hab).
    apply (anti_symm String.le); by apply ltb_le.
Qed.

Lemma ltb_total (a b : string) :
  a <> b -> String.ltb a b = false -> String.ltb b a = true.
Proof.
  intros Hne Hlt. apply le_ne_ltb; [|done].
  destruct (total String.le a b) as [H|H]; [|done].
  rewrite le_ne_ltb in Hlt; done.
Qed.

End StringOrder.

(** ** model.py: the feature columns *)

Section Features.
Import Model.

Lemma elem_of_insert_category x c l :
  x ∈ insert_category c l <-> x = c \/ x ∈ l.
Proof.
  induction l as [|c' l IH]; simpl.
  - rewrite list_elem_of_singleton, elem_of_nil. tauto.
  - case_decide as Heq; [subst; rewrite !elem_of_cons; tauto|].
    destruct (String.ltb c c'); rewrite !elem_of_cons; [tauto|].
    rewrite IH. tauto.
Qed.

Lemma elem_of_categories x l : x ∈ categories l <-> x ∈ l.
Proof.
  induction l as [|c l IH]; simpl; [done|].
  rewrite elem_of_insert_category, elem_of_cons, IH. tauto.
Qed.

Lemma insert_category_increasing c l :
  increasing l -> increasing (insert_category c l).
Proof.
  induction 1 as [|c' l Hl IH Hc']; simpl.
  - repeat constructor.
  - case_decide as Heq; [by constructor|].
    destruct (String.ltb c c') eqn:Hlt.
    + constructor; [by constructor|].
      constructor; [done|].
      eapply Forall_impl; [exact Hc'|]. intros; by eapply ltb_trans.
    + constructor; [done|].
      apply Forall_forall. intros x [->|Hx]%elem_of_insert_category.
      * by apply ltb_total.
      * by eapply Forall_forall in Hc'.
Qed.

Lemma categories_increasing l : increasing (categories l).
Proof.
  induction l; simpl; [constructor | by apply insert_category_increasing].
Qed.

Lemma increasing_NoDup l : increasing l -> NoDup l.
Proof.
  induction 1 as [|c l Hl IH Hc]; constructor; [|done].
  intros Hin. eapply Forall_forall in Hc; [|done].
  by apply ltb_ne in Hc.
Qed.

Lemma NoDup_categories l : NoDup (categories l).
Proof. apply increasing_NoDup, categories_increasing. Qed.

Lemma home_column_inj : Inj (=) (=) home_column.
Proof. unfold home_column. apply _. Qed.

Lemma away_column_inj : Inj (=) (=) away_column.
Proof. unfold away_column. apply _. Qed.

Lemma home_column_ne_away x y : home_column x <> away_column y.
Proof. done. Qed.

Lemma NoDup_get_dummies df : NoDup (columns (get_dummies df)).
Proof.
  simpl. apply NoDup_app. split_and!.
  - apply (NoDup_fmap_2 _), NoDup_categories.
  - intros c [x [-> _]]%list_elem_of_fmap [y [Hy _]]%list_elem_of_fmap.
    by apply home_column_ne_away in Hy.
  - apply (NoDup_fmap_2 _), NoDup_categories.
Qed.

End Features.

(** ** Python dicts *)

Section Dict.
Context {V : Type}.
Implicit Types (d : list (string * V)) (k : string) (v : V).

Lemma dict_set_fresh d k v : k ∉ d.*1 -> Model.dict_set d k v = d ++ [(k, v)].
Proof.
  induction d as [|[k' v'] d IH]; simpl; [done|].
  rewrite not_elem_of_cons. intros [Hne Hnin].
  case_decide; [done|]. by rewrite IH.
Qed.

Lemma dict_set_keys d k v :
  (Model.dict_set d k v).*1 = if decide (k ∈ d.*1) then d.*1 else d.*1 ++ [k].
Proof.
  induction d as [|[k' v'] d IH].
  - cbn. case_decide as Hin; [by apply elem_of_nil in Hin | done].
  - cbn [Model.dict_set fmap list_fmap fst].
    destruct (decide (k = k')) as [->|Hne]; cbn [fmap list_fmap fst].
    + rewrite decide_True; [done | left].
    + rewrite IH. destruct (decide (k ∈ d.*1)) as [Hin|Hnin].
      * rewrite decide_True; [done | by right].
      * rewrite decide_False; [done|]. rewrite not_elem_of_cons. done.
Qed.

Lemma dict_of_columns v cols acc :
  NoDup (acc.*1 ++ cols) ->
  foldl (fun d col => Model.dict_set d col v) acc cols
  = acc ++ ((fun col => (col, v)) <$> cols).
Proof.
  revert acc. induction cols as [|c cols IH]; intros acc Hnd; simpl.
  - by rewrite app_nil_r.
  - apply NoDup_app in Hnd as (Hacc & Hdisj & [Hc Hcols]%NoDup_cons).
    rewrite dict_set_fresh.
    + rewrite IH, <- app_assoc; [done|].
      rewrite fmap_app. simpl. rewrite <- app_assoc. simpl.
      apply NoDup_app. split_and!; [done| |by constructor].
      intros x Hx. apply Hdisj in Hx. done.
    + intros Hin. apply Hdisj in Hin. apply Hin. left.
Qed.

End Dict.

(** ** model.py: fit and predict *)

Section Predictor.
Import Model.

Variable lstsq : list (list Qc) -> list Qc -> list Qc * Qc.

Lemma columns_of_eq games_df :
  columns_of games_df
  = (home_column <$> categories (pretty <$> home_ids games_df))
    ++ (away_column <$> categories (pretty <$> away_ids games_df)).
Proof.
  unfold columns_of, prepare_features, home_ids, away_ids. simpl.
  by rewrite <- !list_fmap_compose.
Qed.

Lemma NoDup_columns_of games_df : NoDup (columns_of games_df).
Proof. apply NoDup_get_dummies. Qed.

Lemma home_column_seen games_df h :
  home_column (pretty h) ∈ columns_of games_df <-> h ∈ home_ids games_df.
Proof.
  rewrite columns_of_eq, elem_of_app, !list_elem_of_fmap. split.
  - intros [(c & Hc & Hin) | (c & Hc & _)].
    + apply home_column_inj in Hc as <-.
      apply elem_of_categories, list_elem_of_fmap in Hin as (h' & Hh & Hin).
      by apply (inj pretty) in Hh as ->.
    + by apply home_column_ne_away in Hc.
  - intros Hin. left. exists (pretty h). split; [done|].
    apply elem_of_categories, list_elem_of_fmap. eauto.
Qed.

Lemma away_column_seen games_df a :
  away_column (pretty a) ∈ columns_of games_df <-> a ∈ away_ids games_df.
Proof.
  rewrite columns_of_eq, elem_of_app, !list_elem_of_fmap. split.
  - intros [(c & Hc & _) | (c & Hc & Hin)].
    + symmetry in Hc. by apply home_column_ne_away in Hc.
    + apply away_column_inj in Hc as <-.
      apply elem_of_categories, list_elem_of_fmap in Hin as (a' & Ha & Hin).
      by apply (inj pretty) in Ha as ->.
  - intros Hin. right. exists (pretty a). split; [done|].
    apply elem_of_categories, list_elem_of_fmap. eauto.
Qed.

(** What [fit] returns, when it returns. *)
Lemma fit_Ok self games_df p :
  fit lstsq self games_df = Ok p ->
  games_df <> []
  /\ feature_columns p = Some (columns_of games_df)
  /\ exists f, model p = Some f
               /\ n_features_in_ f = length (columns_of games_df).
Proof.
  unfold fit, columns_of.
  destruct (prepare_features games_df) as [X y] eqn:HX. simpl.
  unfold lr_fit.
  assert (length (values X) = length games_df) as Hlen.
  { unfold prepare_features in HX. injection HX as <- _. simpl.
    by rewrite !length_fmap. }
  case_decide as Hrows; [done|]. case_decide as Hcols; [done|].
  destruct (lstsq (values X) y) as [coef b]. cbn.
  intros [= <-]. simpl. split_and!; [|done|eauto].
  intros ->. by rewrite Hlen in Hrows.
Qed.

(** [fit] returns on every frame that has a row. *)
Lemma fit_total self games_df :
  games_df <> [] -> exists p, fit lstsq self games_df = Ok p.
Proof.
  intros Hne. unfold fit.
  assert (length (columns_of games_df) <> 0%nat) as Hcols.
  { destruct games_df as [|g games_df]; [done|].
    assert (home_column (pretty (DataLoader.df_home_team_id g))
            ∈ columns_of (g :: games_df)) as Hin
      by (apply home_column_seen; left).
    intros Hnil%nil_length_inv. rewrite Hnil in Hin.
    by apply elem_of_nil in Hin. }
  unfold columns_of in Hcols.
  destruct (prepare_features games_df) as [X y] eqn:HX.
  assert (length (values X) <> 0%nat) as Hrows.
  { unfold prepare_features in HX. injection HX as <- _. simpl.
    rewrite !length_fmap. by destruct games_df. }
  unfold lr_fit. rewrite !decide_False by done.
  destruct (lstsq _ _). cbn. eauto.
Qed.

Lemma prediction_row_length cols home away :
  NoDup cols ->
  length (prediction_row cols home away)
  = (length cols
     + (if decide (home_column (pretty home) ∈ cols) then 0 else 1)
     + (if decide (away_column (pretty away) ∈ cols) then 0 else 1))%nat.
Proof.
  intros Hnd. unfold prediction_row.
  rewrite length_fmap, <- (length_fmap fst), !dict_set_keys.
  rewrite (dict_of_columns _ _ []); [|done]. simpl.
  rewrite <- list_fmap_compose.
  change (fst ∘ (fun col : string => (col, 0%Qc))) with (@id string).
  rewrite list_fmap_id.
  destruct (decide (home_column (pretty home) ∈ cols)).
  - destruct (decide (away_column (pretty away) ∈ cols));
      rewrite ?length_app; simpl; lia.
  - rewrite (decide_ext _ (away_column (pretty away) ∈ cols)).
    + destruct (decide (away_column (pretty away) ∈ cols));
        rewrite ?length_app; simpl; lia.
    + rewrite elem_of_app, list_elem_of_singleton. split; [|tauto].
      intros [?|Heq]; [done|].
      symmetry in Heq. by apply home_column_ne_away in Heq.
Qed.

(** [predict] on a predictor that [fit] returned: it answers when both
    identifiers were seen in their role, and raises otherwise. *)
Lemma predict_seen self games_df p h a :
  fit lstsq self games_df = Ok p ->
  h ∈ home_ids games_df -> a ∈ away_ids games_df ->
  exists f, model p = Some f
    /\ predict p h a
       = Ok (dot (prediction_row (columns_of games_df) h a) (coef_ f)
             + intercept_ f)%Qc.
Proof.
  intros (_ & Hcols & f & Hf & Hn)%fit_Ok Hh Ha.
  exists f. split; [done|].
  unfold predict. rewrite Hcols, Hf. simpl.
  fold (prediction_row (columns_of games_df) h a).
  rewrite decide_True; [done|].
  rewrite prediction_row_length by apply NoDup_columns_of.
  rewrite !decide_True; [lia | by apply away_column_seen | by apply home_column_seen].
Qed.

Lemma predict_unseen self games_df p h a :
  fit lstsq self games_df = Ok p ->
  h ∉ home_ids games_df \/ a ∉ away_ids games_df ->
  predict p h a = Raise ValueError.
Proof.
  intros (_ & Hcols & f & Hf & Hn)%fit_Ok Hunseen.
  unfold predict. rewrite Hcols, Hf. simpl.
  fold (prediction_row (columns_of games_df) h a).
  rewrite decide_False; [done|].
  rewrite prediction_row_length by apply NoDup_columns_of.
  rewrite Hn.
  destruct Hunseen as [Hh|Ha].
  - rewrite (decide_False (P := home_column _ ∈ _)); [|by rewrite home_column_seen].
    destruct (decide (away_column (pretty a) ∈ _)); lia.
  - rewrite (decide_False (P := away_column _ ∈ _)); [|by rewrite away_column_seen].
    destruct (decide (home_column (pretty h) ∈ _)); lia.
Qed.

Lemma halves_sum (total diff : Qc) :
  ((total + diff) / 2 + (total - diff) / 2 = total)%Qc.
Proof. field. done. Qed.

(** [predict_scores] follows [predict]: it raises what [predict] raises, and
    splits the total around the differential that [predict] returns. *)
Lemma predict_scores_split p h a total :
  predict_scores p h a total
  = match predict p h a with
    | Ok diff => Ok (((total + diff) / 2)%Qc, ((total - diff) / 2)%Qc)
    | Raise e => Raise e
    end.
Proof. unfold predict_scores. by destruct (predict p h a). Qed.

(** For identifiers seen at [fit] in their role, the two scores add up to
    the total. *)
Lemma predict_scores_seen self games_df p h a total :
  fit lstsq self games_df = Ok p ->
  h ∈ home_ids games_df -> a ∈ away_ids games_df ->
  exists diff home away,
    predict p h a = Ok diff
    /\ predict_scores p h a total = Ok (home, away)
    /\ home = ((total + diff) / 2)%Qc
    /\ away = ((total - diff) / 2)%Qc
    /\ (home + away = total)%Qc.
Proof.
  intros Hfit Hh Ha.
  destruct (predict_seen _ _ _ _ _ Hfit Hh Ha) as (f & _ & Hp).
  eexists _, _, _. rewrite predict_scores_split, Hp.
  split_and!; try done. apply halves_sum.
Qed.

End Predictor.

(** ** database.py: tables *)

Section Tables.
Import Database.
Context {A : Type} (rowid : A -> Z).
Implicit Types (r : A) (t : list A).

Lemma elem_of_insert_row x r t : x ∈ insert_row rowid r t <-> x = r \/ x ∈ t.
Proof.
  induction t as [|r' t IH]; simpl.
  - rewrite list_elem_of_singleton, elem_of_nil. tauto.
  - case_decide; rewrite !elem_of_cons; [tauto|]. rewrite IH. tauto.
Qed.

Lemma insert_row_last r t :
  Forall (fun r' => rowid r' < rowid r) t -> insert_row rowid r t = t ++ [r].
Proof.
  induction 1 as [|r' t Hr' _ IH]; simpl; [done|].
  rewrite decide_False by lia. by rewrite IH.
Qed.

Lemma max_rowid_ge r t : r ∈ t -> rowid r <= max_rowid rowid t.
Proof.
  induction 1 as [r t|r r' t _ IH]; unfold max_rowid in *; simpl; lia.
Qed.

Lemma next_rowid_fresh seq t :
  Forall (fun r' => rowid r' < next_rowid rowid seq t) t.
Proof.
  apply Forall_forall. intros r Hr%max_rowid_ge. unfold next_rowid. lia.
Qed.

End Tables.

Section ApiImport.
Import Database.

Lemma Games_insert_game date home away hs vs s :
  Games (insert_game date home away hs vs s)
  = Games s
    ++ [mkGame (next_rowid game_id (seq_Games s) (Games s))
          date home away hs vs].
Proof. simpl. apply insert_row_last, (next_rowid_fresh game_id). Qed.

(** The [for g in games] loop appends, in order, one row for each game that
    has both scores, and touches nothing else. *)
Lemma insert_api_games games s :
  let s' := executemany insert_api_game games s in
  Teams s' = Teams s /\ Players s' = Players s
  /\ exists rows, Games s' = Games s ++ rows
       /\ Forall2 stored_as (filter (fun g => has_scores g = true) games) rows.
Proof.
  revert s. induction games as [|g games IH]; intros s; simpl.
  - split_and!; try done. exists []. by rewrite app_nil_r.
  - destruct (IH (insert_api_game g s)) as (HT & HP & rows & HG & Hrows).
    unfold executemany in *. rewrite HT, HP, HG. clear IH HT HP HG.
    unfold insert_api_game. rewrite filter_cons.
    destruct (has_scores g) eqn:Hs.
    + rewrite decide_True by done. split_and!; try done.
      eexists (_ :: rows). rewrite Games_insert_game, <- app_assoc.
      split; [done|]. constructor; [|done]. by repeat split.
    + rewrite decide_False by done. eauto.
Qed.

(** The [for t in teams] loop: every row it adds is a fetched team, every
    fetched id ends up in the table, and nothing else is touched. *)
Lemma insert_api_teams teams s :
  let s' := executemany insert_or_ignore_team teams s in
  Players s' = Players s /\ Games s' = Games s
  /\ seq_Players s' = seq_Players s /\ seq_Games s' = seq_Games s
  /\ (forall r, r ∈ Teams s' ->
        r ∈ Teams s \/ exists t, t ∈ teams /\ r = team_row t)
  /\ (forall r, r ∈ Teams s -> r ∈ Teams s')
  /\ (forall t, t ∈ teams -> api_id t ∈ team_id <$> Teams s').
Proof.
  revert s. induction teams as [|t teams IH]; intros s; simpl.
  - split_and!; try done; [by left | by intros ? ?%elem_of_nil].
  - destruct (IH (insert_or_ignore_team t s))
      as (HP & HG & HsP & HsG & Hfrom & Hkeep & Hall).
    unfold executemany in *. rewrite HP, HG, HsP, HsG. clear IH HP HG HsP HsG.
    assert (forall r, r ∈ Teams (insert_or_ignore_team t s) <->
              r ∈ Teams s \/ ((api_id t ∉ team_id <$> Teams s) /\ r = team_row t))
      as Hstep.
    { intros r. unfold insert_or_ignore_team. case_decide; simpl; [tauto|].
      rewrite elem_of_insert_row. unfold team_row. tauto. }
    split_and!.
    + unfold insert_or_ignore_team. by case_decide.
    + unfold insert_or_ignore_team. by case_decide.
    + unfold insert_or_ignore_team. by case_decide.
    + unfold insert_or_ignore_team. by case_decide.
    + intros r [[Hr|[_ ->]]%Hstep | (t' & Ht' & ->)]%Hfrom.
      * by left.
      * right. exists t. split; [left | done].
      * right. exists t'. split; [by right | done].
    + intros r Hr. apply Hkeep, Hstep. by left.
    + intros t' [->|Ht']%elem_of_cons; [|by apply Hall].
      destruct (decide (api_id t ∈ team_id <$> Teams s)) as [Hin|Hnin].
      * apply list_elem_of_fmap in Hin as (r & Hr & Hin).
        apply list_elem_of_fmap. exists r. split; [done|].
        apply Hkeep, Hstep. by left.
      * apply list_elem_of_fmap. exists (team_row t). split; [done|].
        apply Hkeep, Hstep. by right.
Qed.

(** What a committed API import consists of. *)
Lemma populate_tables_from_api_Ok s num_games api_key api s' :
  populate_tables_from_api s num_games api_key api = Ok s' ->
  exists teams games,
    fetch_teams_from_api api_key api = Ok teams
    /\ fetch_games_from_api num_games api_key api = Ok games
    /\ s' = executemany insert_api_game games
              (delete_games
                 (executemany insert_or_ignore_team teams (delete_teams s))).
Proof.
  unfold populate_tables_from_api.
  intros (teams & Hteams & (games & Hgames & [= <-])%bind_Ok_inv)%bind_Ok_inv.
  eauto.
Qed.

(** The three tables after a committed API import. *)
Lemma api_import_tables s num_games api_key api s' :
  populate_tables_from_api s num_games api_key api = Ok s' ->
  exists teams games,
    fetch_teams_from_api api_key api = Ok teams
    /\ fetch_games_from_api num_games api_key api = Ok games
    /\ Players s' = Players s
    /\ (forall r, r ∈ Teams s' -> exists t, t ∈ teams /\ r = team_row t)
    /\ (forall t, t ∈ teams -> api_id t ∈ team_id <$> Teams s')
    /\ Forall2 stored_as (filter (fun g => has_scores g = true) games)
         (Games s').
Proof.
  intros (teams & games & Hteams & Hgames & ->)%populate_tables_from_api_Ok.
  exists teams, games. split; [done|]. split; [done|].
  destruct (insert_api_teams teams (delete_teams s))
    as (HP & _ & _ & _ & Hfrom & _ & Hall).
  destruct (insert_api_games games
              (delete_games
                 (executemany insert_or_ignore_team teams (delete_teams s))))
    as (HT & HP' & rows & HG & Hrows).
  simpl in *. rewrite HT, HP', HG, HP. split_and!; try done.
  intros r [Hr|Hr]%Hfrom; [by apply elem_of_nil in Hr | done].
Qed.

End ApiImport.

(** ** database.py: paging through the games *)

Section Paging.
Import Database.

Variables (api : Api) (hdr : option string) (num_games : Z).

#[local] Abbreviation page_data := (Database.page_data api hdr).
#[local] Abbreviation accumulated := (Database.accumulated api hdr).
#[local] Abbreviation pages_data := (Database.pages_data api hdr).
#[local] Abbreviation nonempty_page := (Database.nonempty_page api hdr).

(** Fuel beyond the number of games still missing changes nothing. *)
Lemma fetch_loop_fuel fuel fuel' games page :
  (Z.to_nat (num_games - Z.of_nat (length games)) <= fuel)%nat ->
  (Z.to_nat (num_games - Z.of_nat (length games)) <= fuel')%nat ->
  fetch_loop api hdr num_games fuel games page
  = fetch_loop api hdr num_games fuel' games page.
Proof.
  revert fuel' games page.
  induction fuel as [|fuel IH]; intros [|fuel'] games page Hf Hf'; simpl;
    case_decide; try done; try lia.
  destruct (get_games api hdr per_page page) as [[|g data]|e]; try done.
  rewrite (IH fuel'); [done | |]; rewrite length_app; simpl; lia.
Qed.

(** The loop obeys the equation of the [while] statement. *)
Lemma fetch_loop_while fuel games page :
  (Z.to_nat (num_games - Z.of_nat (length games)) <= fuel)%nat ->
  fetch_loop api hdr num_games fuel games page
  = if decide (Z.of_nat (length games) < num_games) then
      match get_games api hdr per_page page with
      | Raise e => (Raise e, [page])
      | Ok [] => (Ok games, [page])
      | Ok data =>
          let r := fetch_loop api hdr num_games fuel
                     (games ++ data) (page + 1) in
          (r.1, page :: r.2)
      end
    else (Ok games, []).
Proof.
  intros Hf. destruct fuel as [|fuel]; simpl; case_decide; try done; try lia.
  destruct (get_games api hdr per_page page) as [[|g data]|e]; try done.
  rewrite (fetch_loop_fuel fuel (S fuel)); [done | |];
    rewrite length_app; simpl; lia.
Qed.

(** The requests of the loop: consecutive pages; before each request every
    earlier page was non-empty and fewer than [num_games] games were held. *)
Lemma fetch_loop_log fuel games page :
  let log := (fetch_loop api hdr num_games fuel games page).2 in
  log = (fun i => page + Z.of_nat i) <$> seq 0 (length log)
  /\ forall i, (i < length log)%nat ->
       (forall j, (j < i)%nat -> nonempty_page (page + Z.of_nat j))
       /\ Z.of_nat (length games + accumulated page i) < num_games.
Proof.
  revert games page. induction fuel as [|fuel IH]; intros games page; simpl.
  { case_decide; simpl; (split; [done|]); intros; lia. }
  case_decide as Hlt; simpl; [|split; [done|]; intros; lia].
  destruct (get_games api hdr per_page page) as [[|g data]|e] eqn:Hpage; simpl.
  - split; [by rewrite Z.add_0_r|]. intros i Hi. assert (i = 0%nat) as -> by lia.
    simpl. split; [intros; lia | lia].
  - destruct (IH (games ++ g :: data) (page + 1)) as [Hlog Hreq].
    split.
    + rewrite Z.add_0_r. f_equal. rewrite <- fmap_S_seq, <- list_fmap_compose.
      rewrite Hlog at 1. apply list_fmap_ext. intros _ i _. simpl. lia.
    + intros [|i] Hi; [simpl; split; [intros; lia | lia]|].
      destruct (Hreq i) as [Hne Hacc]; [lia|]. split.
      * intros [|j] Hj.
        -- rewrite Z.add_0_r. exists (g :: data). done.
        -- replace (page + Z.of_nat (S j)) with (page + 1 + Z.of_nat j) by lia.
           apply Hne. lia.
      * simpl. unfold page_data at 1. rewrite Hpage.
        rewrite length_app in Hacc. simpl in *. lia.
  - split; [by rewrite Z.add_0_r|]. intros i Hi. assert (i = 0%nat) as -> by lia.
    simpl. split; [intros; lia | lia].
Qed.

(** What the loop returns: the games held at the start, then the games of
    the pages it requested. *)
Lemma fetch_loop_games fuel games page result :
  (fetch_loop api hdr num_games fuel games page).1 = Ok result ->
  result
  = games
    ++ pages_data page
         (length (fetch_loop api hdr num_games fuel games page).2).
Proof.
  revert games page. induction fuel as [|fuel IH]; intros games page; simpl.
  { case_decide; simpl; intros [= <-]; by rewrite app_nil_r. }
  case_decide as Hlt; simpl; [|intros [= <-]; by rewrite app_nil_r].
  destruct (get_games api hdr per_page page) as [[|g data]|e] eqn:Hpage; simpl;
    [| |done].
  - intros [= <-]. unfold page_data. rewrite Hpage. by rewrite app_nil_r.
  - intros Hr. apply IH in Hr. rewrite Hr, <- app_assoc. f_equal.
    unfold page_data. by rewrite Hpage.
Qed.

(** [fetch_games_from_api] runs its loop to the end: any larger fuel gives
    the same outcome and the same requests. *)
Lemma fetch_games_from_api_fuel fuel :
  (Z.to_nat num_games <= fuel)%nat ->
  fetch_loop api hdr num_games fuel [] 1
  = fetch_loop api hdr num_games (Z.to_nat num_games) [] 1.
Proof. intros Hf. apply fetch_loop_fuel; simpl; lia. Qed.

Lemma slice_to_length {A} (l : list A) :
  (num_games < 0 -> l = []) ->
  (length (slice_to num_games l) <= Z.to_nat num_games)%nat.
Proof.
  intros Hneg. unfold slice_to. case_decide.
  - rewrite length_take. lia.
  - rewrite Hneg by lia. simpl. lia.
Qed.

Lemma fetch_loop_negative fuel page :
  num_games < 0 ->
  fetch_loop api hdr num_games fuel [] page = (Ok [], []).
Proof. intros Hneg. destruct fuel; simpl; case_decide; done || lia. Qed.

End Paging.

(** ** model.py: the claims on the predictor *)

Section PredictorClaims.
Import Model.

Variable lstsq : list (list Qc) -> list Qc -> list Qc * Qc.

(** C1, evaluated where the code departs from it.  The predictor is fitted
    on one game, team 1 at home against team 2.  Asked for team 2 at home
    against team 1, [predict_scores] does not return a pair of scores that
    add up to the total: it raises [ValueError], whatever the solver and
    the total. *)
Theorem predict_scores_raises_for_swapped_roles (total : Qc) :
  exists p,
    fit lstsq __init__ Samples.one_game = Ok p
    /\ predict_scores p 2 1 total = Raise ValueError.
Proof.
  destruct (fit_total lstsq __init__ Samples.one_game) as [p Hp]; [done|].
  exists p. split; [done|].
  rewrite predict_scores_split.
  rewrite (predict_unseen lstsq _ _ _ _ _ Hp); [done|].
  left. by intros [= ]%list_elem_of_singleton.
Qed.

(** C2, evaluated where the code departs from it.  After a fit on one game,
    team 1 at home against team 2, [predict] raises [ValueError] for a home
    identifier never seen at home, for an away identifier never seen away,
    and for both: the indicator of an unseen identifier is not omitted, it
    is added to the row as one column more than the estimator was trained
    on. *)
Theorem predict_raises_for_unseen_identifier :
  exists p,
    fit lstsq __init__ Samples.one_game = Ok p
    /\ predict p 3 2 = Raise ValueError
    /\ predict p 1 3 = Raise ValueError
    /\ predict p 2 1 = Raise ValueError
    /\ length (prediction_row (columns_of Samples.one_game) 3 2) = 3%nat
    /\ length (columns_of Samples.one_game) = 2%nat.
Proof.
  destruct (fit_total lstsq __init__ Samples.one_game) as [p Hp]; [done|].
  exists p. split; [done|].
  split_and!; try done;
    apply (predict_unseen lstsq _ _ _ _ _ Hp);
    [left | right | left]; by intros [= ]%list_elem_of_singleton.
Qed.

(** C3 as stated fails: on a predictor that was only constructed, [predict]
    does not raise scikit-learn's not-fitted error. *)
Lemma predict_before_fit_not_NotFittedError :
  predict __init__ 1 2 <> Raise NotFittedError.
Proof. done. Qed.

(** C3, amended.  On a predictor that was only constructed, every call of
    [predict] and of [predict_scores] raises [AttributeError] (the attribute
    [feature_columns] does not exist yet) and returns no value. *)
Theorem predict_before_fit_raises_AttributeError (h a : Z) (total : Qc) :
  predict __init__ h a = Raise AttributeError
  /\ predict_scores __init__ h a total = Raise AttributeError.
Proof. done. Qed.

(** C4 as stated fails: [fit] on no games does not raise the empty-input
    error of the specification. *)
Lemma fit_empty_not_EmptyInputError :
  ~ (forall (solver : list (list Qc) -> list Qc -> list Qc * Qc) self,
       fit solver self [] = Raise EmptyInputError).
Proof. intros H. by specialize (H (fun _ _ => ([], 0%Qc)) __init__). Qed.

(** C4, amended.  [fit] on an empty game collection raises [ValueError], the
    error of the estimator's input validation, and stores nothing; on a
    collection with at least one game it returns. *)
Theorem fit_empty_raises_ValueError :
  (forall self, fit lstsq self [] = Raise ValueError)
  /\ (forall self games_df,
        games_df <> [] -> exists p, fit lstsq self games_df = Ok p).
Proof. split; [done | apply fit_total]. Qed.

End PredictorClaims.

(** ** database.py: the claims on the API import *)

Section ImportClaims.
Import Database.

Lemma has_scores_spec g :
  has_scores g = true
  <-> api_home_team_score g <> None /\ api_visitor_team_score g <> None.
Proof.
  unfold has_scores.
  rewrite andb_true_iff, !bool_decide_eq_true. tauto.
Qed.

(** C5.  After a committed API import, a fetched game has a row in Games
    exactly when both of its scores are present; the rows of Games are, in
    order, the fetched games with both scores, and none holds a null
    score. *)
Theorem api_game_stored_iff_scored s num_games api_key api s' games :
  populate_tables_from_api s num_games api_key api = Ok s' ->
  fetch_games_from_api num_games api_key api = Ok games ->
  (forall g, g ∈ games ->
     (exists r, r ∈ Games s' /\ stored_as g r)
     <-> api_home_team_score g <> None /\ api_visitor_team_score g <> None)
  /\ (forall r, r ∈ Games s' -> home_score r <> None /\ away_score r <> None)
  /\ Forall2 stored_as (filter (fun g => has_scores g = true) games) (Games s').
Proof.
  intros (teams & games' & _ & Hgames & _ & _ & _ & Hrows)%api_import_tables.
  rewrite Hgames. intros [= <-].
  assert (forall r, r ∈ Games s' ->
            home_score r <> None /\ away_score r <> None) as Hscored.
  { intros r Hr.
    destruct (Forall2_elem_of_r _ _ _ _ Hrows Hr) as (g & Hg & Hst).
    apply list_elem_of_filter in Hg as [Hg%has_scores_spec _].
    destruct Hst as (_ & _ & _ & -> & ->). done. }
  split_and!; [|done|done].
  intros g Hg. split.
  - intros (r & Hr & Hst). apply Hscored in Hr.
    destruct Hst as (_ & _ & _ & <- & <-). done.
  - intros Hs%has_scores_spec.
    assert (g ∈ filter (fun g => has_scores g = true) games') as Hin
      by by apply list_elem_of_filter.
    destruct (Forall2_elem_of_l _ _ _ _ Hrows Hin) as (r & Hr & Hst). eauto.
Qed.

(** C7.  A committed API import leaves Players as it was; every row of
    Teams is a fetched team and every fetched team id has its row; the rows
    of Games are the fetched games that have both scores.  No row of the
    former Teams and Games tables is kept as such. *)
Theorem api_import_replaces_teams_and_games s num_games api_key api s' :
  populate_tables_from_api s num_games api_key api = Ok s' ->
  exists teams games,
    fetch_teams_from_api api_key api = Ok teams
    /\ fetch_games_from_api num_games api_key api = Ok games
    /\ Players s' = Players s
    /\ (forall r, r ∈ Teams s' -> exists t, t ∈ teams /\ r = team_row t)
    /\ (forall t, t ∈ teams -> exists r, r ∈ Teams s' /\ team_id r = api_id t)
    /\ Forall2 stored_as (filter (fun g => has_scores g = true) games)
         (Games s').
Proof.
  intros (teams & games & Ht & Hg & HP & Hfrom & Hall & Hrows)%api_import_tables.
  exists teams, games. split_and!; try done.
  intros t (r & Hid & Hr)%Hall%list_elem_of_fmap. eauto.
Qed.

(** Whether the import commits or raises, [setup_database] in API mode
    leaves Players as it was. *)
Lemma api_mode_keeps_players db num_games api_key api :
  Players (setup_database db true num_games api_key api).1
  = Players (create_tables db).
Proof.
  unfold setup_database.
  destruct (populate_tables_from_api _ _ _ _) as [s'|e] eqn:H; [|done].
  by apply api_import_tables in H as (? & ? & _ & _ & ? & _).
Qed.

End ImportClaims.

Section PagingClaims.
Import Database.

(** C6.  The game fetch requests pages 1, 2, 3, ... in order.  A page is
    requested only if every page before it was answered with at least one
    game and the pages before it hold fewer than [num_games] games together:
    after an empty page, or once [num_games] games are held, no further
    request is issued.  What the fetch returns is the first [num_games]
    games of the requested pages, never more than [num_games] of them, and
    so Games never holds more than [num_games] rows after the import. *)
Theorem fetch_games_stops_and_never_exceeds num_games api_key api :
  (fetch_games_from_api_log num_games api_key api).2
  = Z.of_nat
    <$> seq 1 (length (fetch_games_from_api_log num_games api_key api).2)
  /\ (forall i,
        (i < length (fetch_games_from_api_log num_games api_key api).2)%nat ->
        (forall j, (j < i)%nat ->
           nonempty_page api (headers api_key) (1 + Z.of_nat j))
        /\ Z.of_nat (accumulated api (headers api_key) 1 i) < num_games)
  /\ (forall games,
        fetch_games_from_api num_games api_key api = Ok games ->
        (length games <= Z.to_nat num_games)%nat
        /\ games
           = slice_to num_games
               (pages_data api (headers api_key) 1
                  (length (fetch_games_from_api_log num_games api_key api).2)))
  /\ (forall s s',
        populate_tables_from_api s num_games api_key api = Ok s' ->
        (length (Games s') <= Z.to_nat num_games)%nat).
Proof.
  assert (forall games,
            fetch_games_from_api num_games api_key api = Ok games ->
            (length games <= Z.to_nat num_games)%nat
            /\ games
               = slice_to num_games
                   (pages_data api (headers api_key) 1
                      (length
                         (fetch_games_from_api_log num_games api_key api).2)))
    as Hreturned.
  { intros games. unfold fetch_games_from_api, fetch_games_from_api_log.
    cbn [fst snd].
    intros (all & Hall & [= <-])%bind_Ok_inv.
    pose proof (fetch_loop_games _ _ _ _ _ _ _ Hall) as Hpages.
    simpl in Hpages. rewrite <- Hpages. split; [|done].
    apply slice_to_length. intros Hneg.
    rewrite fetch_loop_negative in Hall by done. by injection Hall as <-. }
  unfold fetch_games_from_api_log at 1 2 3. cbn [snd].
  destruct (fetch_loop_log api (headers api_key) num_games
              (Z.to_nat num_games) [] 1) as [Hlog Hreq].
  simpl in Hlog, Hreq.
  split_and!.
  - rewrite Hlog at 1. rewrite <- fmap_S_seq, <- list_fmap_compose.
    apply list_fmap_ext. intros _ i _. simpl. lia.
  - done.
  - done.
  - intros s s' (_ & games & _ & Hgames & _ & _ & _ & Hrows)%api_import_tables.
    apply Hreturned in Hgames as [Hlen _].
    apply Forall2_length in Hrows. rewrite <- Hrows.
    etrans; [apply length_filter | done].
Qed.

End PagingClaims.

(** ** database.py: references between the tables *)

Section References.
Import Database.

Lemma executemany_preserves {A} (P : Store -> Prop)
    (exec : A -> Store -> Store) rows s :
  (forall r s, P s -> P (exec r s)) -> P s -> P (executemany exec rows s).
Proof.
  intros Hexec. revert s. unfold executemany.
  induction rows as [|r rows IH]; intros s Hs; simpl; [done|].
  by apply IH, Hexec.
Qed.

Lemma insert_game_references_present date home away hs vs s :
  references_present s ->
  references_present (insert_game date (Some home) (Some away) hs vs s).
Proof.
  intros Hs g. rewrite Games_insert_game, elem_of_app, list_elem_of_singleton.
  intros [Hg| ->]; [by apply Hs | done].
Qed.

Lemma populate_tables_references_present s :
  references_present s -> references_present (populate_tables s).
Proof.
  intros Hs. unfold populate_tables.
  apply executemany_preserves.
  { intros [[[[d h] a] hs] vs] s'. apply insert_game_references_present. }
  apply (executemany_preserves (fun s => references_present s));
    [by intros|].
  by apply (executemany_preserves (fun s => references_present s)).
Qed.

Lemma api_import_references_present s num_games api_key api s' :
  populate_tables_from_api s num_games api_key api = Ok s' ->
  references_present s'.
Proof.
  intros (_ & games & _ & _ & _ & _ & _ & Hrows)%api_import_tables g Hg.
  destruct (Forall2_elem_of_r _ _ _ _ Hrows Hg) as (ag & _ & Hst).
  destruct Hst as (_ & -> & -> & _). done.
Qed.

(** In every reachable store each game row names both of its teams. *)
Lemma reachable_references_present s :
  reachable s -> references_present s.
Proof.
  induction 1 as [|s _ IH|s n key api s' _ _ Himport].
  - by intros g Hg%elem_of_nil.
  - by apply populate_tables_references_present.
  - by eapply api_import_references_present.
Qed.

Lemma resolves_elem_of s ref :
  resolves s ref
  <-> match ref with
      | Some i => i ∈ team_id <$> Teams s
      | None => True
      end.
Proof.
  destruct ref as [i|]; simpl; [|done].
  rewrite list_elem_of_fmap. split.
  - intros (t & Ht & <-). eauto.
  - intros (t & -> & Ht). eauto.
Qed.

Lemma references_resolve_Forall s :
  references_resolve s
  <-> Forall (fun g =>
        match home_team_id g with
        | Some i => i ∈ team_id <$> Teams s
        | None => True
        end
        /\ match away_team_id g with
           | Some i => i ∈ team_id <$> Teams s
           | None => True
           end) (Games s).
Proof.
  rewrite Forall_forall. unfold references_resolve.
  apply forall_proper. intros g. by rewrite !resolves_elem_of.
Qed.

(** After a committed API import every reference resolves exactly when
    each fetched game that has both scores names a home team and a visitor
    team that the provider also lists: the import checks nothing, so any
    other answer leaves a reference that resolves to no row. *)
Lemma api_import_references_resolve_iff
    s num_games api_key api s' teams games :
  populate_tables_from_api s num_games api_key api = Ok s' ->
  fetch_teams_from_api api_key api = Ok teams ->
  fetch_games_from_api num_games api_key api = Ok games ->
  references_resolve s'
  <-> (forall g, g ∈ games -> has_scores g = true ->
         api_id (api_home_team g) ∈ api_id <$> teams
         /\ api_id (api_visitor_team g) ∈ api_id <$> teams).
Proof.
  intros (teams' & games' & Ht & Hg & _ & Hfrom & Hall & Hrows)%api_import_tables.
  rewrite Ht, Hg. intros [= <-] [= <-].
  assert (forall i, resolves s' (Some i) <-> i ∈ api_id <$> teams') as Hres.
  { intros i. rewrite resolves_elem_of. split.
    - intros (row & -> & Hrow)%list_elem_of_fmap.
      destruct (Hfrom row Hrow) as (t & Hin & ->).
      apply list_elem_of_fmap. by exists t.
    - intros (t & -> & Hin)%list_elem_of_fmap. by apply Hall. }
  split.
  - intros Hresolve g Hin Hscored.
    assert (g ∈ filter (fun g => has_scores g = true) games') as Hin'
      by by apply list_elem_of_filter.
    destruct (Forall2_elem_of_l _ _ _ _ Hrows Hin') as (r & Hr & Hst).
    destruct (Hresolve r Hr) as [Hhome Haway].
    destruct Hst as (_ & Hh & Ha & _). rewrite Hh in Hhome. rewrite Ha in Haway.
    split; by apply Hres.
  - intros Hlisted r Hr.
    destruct (Forall2_elem_of_r _ _ _ _ Hrows Hr) as (g & Hin & Hst).
    apply list_elem_of_filter in Hin as [Hscored Hin].
    destruct (Hlisted g Hin Hscored) as [Hhome Haway].
    destruct Hst as (_ & -> & -> & _).
    split; by apply Hres.
Qed.

(** The claim of the specification fails in the model: a store in which a
    game row refers to a team that Teams does not hold is reachable. *)
Lemma reachable_store_with_dangling_reference :
  ~ (forall s, reachable s -> references_resolve s).
Proof.
  intros H.
  assert (populate_tables_from_api (create_tables None) 1 None
            Samples.provider_without_teams
          = Ok (mkStore [] []
                  [mkGame 1 "2024-01-01" (Some 1) (Some 2)
                     (Some 110) (Some 99)] 0 0 1)) as Himport by done.
  apply (reachable_api _ _ _ _ _ reachable_create), H in Himport.
  destruct (Himport (mkGame 1 "2024-01-01" (Some 1) (Some 2)
                       (Some 110) (Some 99))) as [(t & Ht & _) _]; [left|].
  by apply elem_of_nil in Ht.
Qed.

(** The fictional import names its teams 1 to 4, the ids of a fresh Teams
    table.  On a store that an API import has filled with other team ids,
    the seeded games refer to no row, although the provider was
    consistent. *)
Lemma seed_after_api_import_dangles :
  exists s,
    populate_tables_from_api (create_tables None) 1 None
      Samples.provider_other_ids = Ok s
    /\ references_resolve s
    /\ ~ references_resolve (populate_tables s).
Proof.
  eexists. split; [reflexivity|]. split.
  - apply references_resolve_Forall. vm_compute.
    repeat (constructor; [split; repeat constructor|]). constructor.
  - intros H.
    destruct (H (mkGame 2 "2023-01-01" (Some 1) (Some 2) (Some 102) (Some 98)))
      as [(t & Ht & Hid) _].
    + vm_compute. repeat constructor.
    + vm_compute in Ht.
      repeat (apply elem_of_cons in Ht as [->|Ht]; [discriminate Hid|]).
      by apply elem_of_nil in Ht.
Qed.

(** C9.  The schema declares the two team references of Games as foreign
    keys of Teams, but no import checks them and enforcement is never
    switched on, so [setup_database] leaves game rows whose references
    resolve to no row of Teams.  In real mode on a fresh file, with a
    provider that reports a played game and lists no team, the committed
    store holds that game and no team.  And a fictional run after a real
    run whose provider was consistent, but listed the ids 14 and 20, appends
    the seed games, which name the teams 1 to 4 by literal ids, beside seed
    teams that received the ids 21 to 24: the references of the seed games
    resolve to nothing. *)
Theorem imports_leave_dangling_team_references :
  (exists s g,
     setup_database None true 1 None Samples.provider_without_teams
     = (s, Ok tt)
     /\ reachable s
     /\ Teams s = []
     /\ g ∈ Games s
     /\ home_team_id g = Some 1 /\ away_team_id g = Some 2
     /\ ~ references_resolve s)
  /\ (exists s1 s2 g,
        setup_database None true 1 None Samples.provider_other_ids
        = (s1, Ok tt)
        /\ references_resolve s1
        /\ setup_database (Some s1) false 100 None Samples.provider_other_ids
           = (s2, Ok tt)
        /\ reachable s2
        /\ team_id <$> Teams s2 = [14; 20; 21; 22; 23; 24]
        /\ g ∈ Games s2
        /\ home_team_id g = Some 1 /\ away_team_id g = Some 2
        /\ ~ references_resolve s2).
Proof.
  split.
  - exists (mkStore [] []
              [mkGame 1 "2024-01-01" (Some 1) (Some 2) (Some 110) (Some 99)]
              0 0 1),
      (mkGame 1 "2024-01-01" (Some 1) (Some 2) (Some 110) (Some 99)).
    split; [reflexivity|]. split.
    { apply (reachable_api (create_tables None) 1 None
               Samples.provider_without_teams);
        [apply reachable_create | reflexivity]. }
    split; [reflexivity|]. split; [left|]. split; [reflexivity|].
    split; [reflexivity|].
    intros H.
    destruct (H (mkGame 1 "2024-01-01" (Some 1) (Some 2)
                   (Some 110) (Some 99))) as [(t & Ht & _) _]; [left|].
    by apply elem_of_nil in Ht.
  - destruct (populate_tables_from_api (create_tables None) 1 None
                Samples.provider_other_ids) as [s1|e] eqn:Himport;
      [|vm_compute in Himport; discriminate Himport].
    assert (s1 = mkStore [mkTeam 14 "Lakers" "Los Angeles";
                          mkTeam 20 "Knicks" "New York"] []
                   [mkGame 1 "2024-01-03" (Some 14) (Some 20)
                      (Some 101) (Some 97)] 20 0 1) as Hs1.
    { vm_compute in Himport. by injection Himport as <-. }
    exists s1, (populate_tables s1),
      (mkGame 2 "2023-01-01" (Some 1) (Some 2) (Some 102) (Some 98)).
    split. { unfold setup_database. by rewrite Himport. }
    split.
    { rewrite Hs1. apply references_resolve_Forall. vm_compute.
      repeat (constructor; [split; repeat constructor|]). constructor. }
    split; [reflexivity|]. split.
    { apply reachable_seed.
      apply (reachable_api (create_tables None) 1 None
               Samples.provider_other_ids);
        [apply reachable_create | exact Himport]. }
    rewrite Hs1.
    split; [vm_compute; reflexivity|].
    split; [vm_compute; repeat constructor|].
    split; [reflexivity|]. split; [reflexivity|].
    intros H.
    destruct (H (mkGame 2 "2023-01-01" (Some 1) (Some 2) (Some 102) (Some 98)))
      as [(t & Ht & Hid) _].
    + vm_compute. repeat constructor.
    + vm_compute in Ht.
      repeat (apply elem_of_cons in Ht as [->|Ht]; [discriminate Hid|]).
      by apply elem_of_nil in Ht.
Qed.

End References.

(** ** main.py: the roster *)

Section Roster.
Import Database DataLoader Main.

Lemma elem_of_drop_duplicates {A} `{EqDecision A} (x : A) df :
  x ∈ drop_duplicates df <-> x ∈ df.
Proof.
  unfold drop_duplicates.
  by rewrite elem_of_reverse, elem_of_remove_dups, elem_of_reverse.
Qed.

Lemma elem_of_valid_team_ids games_df x :
  x ∈ valid_team_ids games_df
  <-> exists g, g ∈ games_df
        /\ (df_home_team_id g = x \/ df_away_team_id g = x).
Proof.
  unfold valid_team_ids.
  rewrite elem_of_union, !elem_of_list_to_set, !list_elem_of_fmap. split.
  - intros [(g & -> & Hg)|(g & -> & Hg)]; eauto.
  - intros (g & Hg & [<-|<-]); eauto.
Qed.

(** With every reference present, the identifiers of the Games frame are
    the references of the Games table. *)
Lemma valid_team_ids_of_store s x :
  references_present s ->
  x ∈ valid_team_ids (preprocess_data (DataLoader.load_data s)).2
  <-> exists g, g ∈ Games s
        /\ (home_team_id g = Some x \/ away_team_id g = Some x).
Proof.
  intros Hpresent. simpl. rewrite elem_of_valid_team_ids. split.
  - intros (g & (r & -> & Hr)%list_elem_of_fmap & Hx).
    rewrite elem_of_drop_duplicates in Hr.
    exists r. split; [done|].
    destruct (Hpresent r Hr) as [Hh Ha]. simpl in Hx.
    destruct (home_team_id r), (away_team_id r); try done.
    simpl in Hx. destruct Hx as [<-|<-]; eauto.
  - intros (r & Hr & Hx). exists (fillna_game r). split.
    + apply list_elem_of_fmap. exists r. split; [done|].
      by apply elem_of_drop_duplicates.
    + simpl. destruct Hx as [->| ->]; eauto.
Qed.

Lemma print_roster_lines (roster : list TeamRow) w :
  exists out,
    foldr (fun t k => _ ← print (roster_line t); k) (mret tt) roster w
    = (Ok tt, mkWorld (stdin w) out (db w)).
Proof.
  revert w. induction roster as [|t roster IH]; intros w; simpl.
  - exists (stdout w). by destruct w.
  - unfold mbind, IO_bind, print at 1. simpl.
    destruct (IH (mkWorld (stdin w) (stdout w ++ [roster_line t]) (db w)))
      as [out Hout].
    exists out. exact Hout.
Qed.

Variable api : Api.

(** What [load_roster] returns, when it returns. *)
Lemma load_roster_Ok use_real num_games api_key w roster w' :
  load_roster api (use_real, num_games, api_key) w = (Ok roster, w') ->
  exists s',
    Database.setup_database (db w) use_real num_games api_key api
    = (s', Ok tt)
    /\ db w' = Some s'
    /\ roster_valid_team_ids roster
       = valid_team_ids (preprocess_data (DataLoader.load_data s')).2
    /\ roster_valid_teams_df roster
       = valid_teams_df (preprocess_data (DataLoader.load_data s')).1.1
           (valid_team_ids (preprocess_data (DataLoader.load_data s')).2).
Proof.
  unfold load_roster, mbind, IO_bind, print, setup_database, Main.load_data.
  simpl.
  destruct (Database.setup_database (db w) use_real num_games api_key api)
    as [s' [[]|e]] eqn:Hsetup; simpl; [|done].
  cbn [Database.create_tables].
  match goal with
  | |- context [foldr ?f ?z ?l ?w0] =>
      destruct (print_roster_lines l w0) as [out Hout]
  end.
  unfold mbind, IO_bind, print in Hout. rewrite Hout. simpl.
  intros [= <- <-]. exists s'. done.
Qed.

Lemma setup_database_reachable db use_real num_games api_key s' r :
  (forall s, db = Some s -> reachable s) ->
  Database.setup_database db use_real num_games api_key api = (s', r) ->
  reachable s'.
Proof.
  intros Hdb. unfold Database.setup_database.
  assert (reachable (create_tables db)) as Hs.
  { destruct db as [s|]; [by apply Hdb | constructor]. }
  destruct use_real.
  - destruct (populate_tables_from_api _ _ _ _) as [s''|e] eqn:Himport;
      intros [= <- _]; [|done].
    by eapply reachable_api.
  - intros [= <- _]. by constructor.
Qed.

(** C8.  When the driver has provisioned the store (in either mode, from a
    database file that earlier runs left or from none) and loaded it, its
    set [valid_team_ids] holds exactly the identifiers that some row of
    Games names as home or as away team, and the roster it shows holds
    exactly the rows of Teams whose identifier is in that set. *)
Theorem valid_team_ids_are_the_teams_of_games options w roster w' :
  (forall s, db w = Some s -> reachable s) ->
  load_roster api options w = (Ok roster, w') ->
  exists s',
    db w' = Some s'
    /\ (forall x,
          x ∈ roster_valid_team_ids roster
          <-> exists g, g ∈ Games s'
                /\ (home_team_id g = Some x \/ away_team_id g = Some x))
    /\ (forall t,
          t ∈ roster_valid_teams_df roster
          <-> t ∈ Teams s'
              /\ exists g, g ∈ Games s'
                   /\ (home_team_id g = Some (team_id t)
                       \/ away_team_id g = Some (team_id t))).
Proof.
  destruct options as [[use_real num_games] api_key].
  intros Hdb (s' & Hsetup & Hdb' & Hids & Hteams)%load_roster_Ok.
  exists s'. split; [done|].
  assert (references_present s') as Hpresent.
  { eapply reachable_references_present, setup_database_reachable; eauto. }
  rewrite Hids, Hteams. split.
  - intros x. by apply valid_team_ids_of_store.
  - intros t. unfold valid_teams_df. rewrite list_elem_of_filter.
    rewrite valid_team_ids_of_store by done. simpl.
    rewrite elem_of_drop_duplicates. tauto.
Qed.

End Roster.

(** ** main.py: the options *)

Section Options.
Import Main.

Variable py_int : string -> result Z.


End Options.

(** ** The driver reaches the unseen-identifier case *)

Section Matchup.
Import Main.

Variable lstsq : list (list Qc) -> list Qc -> list Qc * Qc.

(** After a fit on one game, team 1 at home against team 2, both teams are
    in [valid_team_ids]; the matchup of team 2 at home against team 1
    passes the driver's checks and ends in the [ValueError] of
    [predict]. *)
Lemma matchup_swapped_roles_fails p teams total :
  Model.fit lstsq Model.__init__ Samples.one_game = Ok p ->
  matchup int_of_numeral
    (mkSession (valid_team_ids Samples.one_game) teams p total) "2" "1"
  = Failed ValueError.
Proof.
  intros Hfit. unfold matchup.
  change (int_of_numeral "2") with (Ok 2 : result Z).
  change (int_of_numeral "1") with (Ok 1 : result Z).
  cbn [session_valid_team_ids session_predictor session_avg_total].
  rewrite decide_False by done.
  rewrite decide_False.
  - rewrite predict_scores_split.
    rewrite (predict_unseen lstsq _ _ _ _ _ Hfit); [done|].
    left. by intros [= ]%list_elem_of_singleton.
  - intros [H|H]; apply H; apply elem_of_valid_team_ids; eexists;
      (split; [left|]); simpl; auto.
Qed.

End Matchup.

(** ** The theorems at concrete inputs *)

Section Witnesses.
Import Database.

Lemma api_game_stored_iff_scored_witness :
  exists s' games,
    populate_tables_from_api empty_store 3 None Samples.provider = Ok s'
    /\ fetch_games_from_api 3 None Samples.provider = Ok games
    /\ (forall g, g ∈ games ->
          (exists r, r ∈ Games s' /\ stored_as g r)
          <-> api_home_team_score g <> None
              /\ api_visitor_team_score g <> None)
    /\ (forall r, r ∈ Games s' ->
          home_score r <> None /\ away_score r <> None)
    /\ Forall2 stored_as
         (filter (fun g => has_scores g = true) games) (Games s').
Proof.
  eexists _, _. split; [reflexivity|]. split; [reflexivity|].
  apply (api_game_stored_iff_scored empty_store 3 None Samples.provider);
    reflexivity.
Defined.

Lemma api_import_replaces_teams_and_games_witness :
  exists s',
    populate_tables_from_api (populate_tables empty_store) 3 None
      Samples.provider = Ok s'
    /\ exists teams games,
         fetch_teams_from_api None Samples.provider = Ok teams
         /\ fetch_games_from_api 3 None Samples.provider = Ok games
         /\ Players s' = Players (populate_tables empty_store)
         /\ (forall r, r ∈ Teams s' -> exists t, t ∈ teams /\ r = team_row t)
         /\ (forall t, t ∈ teams ->
               exists r, r ∈ Teams s' /\ team_id r = api_id t)
         /\ Forall2 stored_as
              (filter (fun g => has_scores g = true) games) (Games s').
Proof.
  eexists. split; [reflexivity|].
  apply (api_import_replaces_teams_and_games (populate_tables empty_store)
           3 None Samples.provider).
  reflexivity.
Defined.

Lemma valid_team_ids_are_the_teams_of_games_witness :
  exists roster w' s',
    Main.load_roster Samples.provider (false, 100, None)
      (Main.mkWorld [] [] None) = (Ok roster, w')
    /\ Main.db w' = Some s'
    /\ (forall x,
          x ∈ Main.roster_valid_team_ids roster
          <-> exists g, g ∈ Games s'
                /\ (home_team_id g = Some x \/ away_team_id g = Some x)).
Proof.
  destruct (Main.load_roster Samples.provider (false, 100, None)
              (Main.mkWorld [] [] None)) as [[roster|e] w'] eqn:Hrun.
  - destruct (valid_team_ids_are_the_teams_of_games Samples.provider
                (false, 100, None) (Main.mkWorld [] [] None) roster w')
      as (s' & Hdb & Hids & _).
    + intros s Hs. discriminate Hs.
    + exact Hrun.
    + exists roster, w', s'. split; [reflexivity|]. split; assumption.
  - vm_compute in Hrun. discriminate Hrun.
Defined.


End Witnesses.

(** * Further properties *)

(** ** model.py: what the predictor computes *)

Section PredictorValues.
Import Model.

Variable lstsq : list (list Qc) -> list Qc -> list Qc * Qc.

Lemma dict_set_in_place {V} (f : string -> V) cols k v :
  NoDup cols -> k ∈ cols ->
  dict_set ((fun c => (c, f c)) <$> cols) k v
  = (fun c => (c, if decide (c = k) then v else f c)) <$> cols.
Proof.
  induction 1 as [|c cols Hc Hnd IH]; intros Hk.
  - by apply elem_of_nil in Hk.
  - cbn [fmap list_fmap dict_set].
    destruct (decide (k = c)) as [->|Hne].
    + rewrite decide_True by done. f_equal.
      apply list_fmap_ext. intros _ c' Hc'%list_elem_of_lookup_2.
      rewrite decide_False; [done|]. by intros ->.
    + rewrite decide_False by done. f_equal.
      apply IH. by apply elem_of_cons in Hk as [?|?].
Qed.

(** With both columns stored, the row is the stored columns with a one at
    the two columns and a zero elsewhere. *)
Lemma prediction_row_seen cols h a :
  NoDup cols ->
  home_column (pretty h) ∈ cols -> away_column (pretty a) ∈ cols ->
  prediction_row cols h a
  = (fun c => if decide (c = away_column (pretty a)) then 1%Qc
              else if decide (c = home_column (pretty h)) then 1%Qc
              else 0%Qc) <$> cols.
Proof.
  intros Hnd Hh Ha. unfold prediction_row.
  rewrite (dict_of_columns _ _ []) by done. simpl.
  rewrite (dict_set_in_place (fun _ => 0%Qc)) by done.
  rewrite (dict_set_in_place
             (fun c => if decide (c = home_column (pretty h)) then 1%Qc
                       else 0%Qc)) by done.
  by rewrite <- list_fmap_compose.
Qed.

Lemma coefficient_not_column cols coef c :
  c ∉ cols -> coefficient cols coef c = 0%Qc.
Proof.
  revert coef. induction cols as [|c' cols IH]; intros [|w coef] Hc;
    simpl; try done.
  apply not_elem_of_cons in Hc as [Hne Hc].
  rewrite decide_False by done. by apply IH.
Qed.

Lemma dot_cons x xs w ws : dot (x :: xs) (w :: ws) = (x * w + dot xs ws)%Qc.
Proof. done. Qed.

Lemma dot_two_columns cols coef hk ak :
  NoDup cols -> hk <> ak ->
  dot ((fun c => if decide (c = ak) then 1%Qc
                 else if decide (c = hk) then 1%Qc else 0%Qc) <$> cols) coef
  = (coefficient cols coef hk + coefficient cols coef ak)%Qc.
Proof.
  intros Hnd Hne. revert coef.
  induction Hnd as [|c cols Hc Hnd IH]; intros [|w coef];
    cbn [fmap list_fmap coefficient]; try (unfold dot; simpl; ring).
  rewrite dot_cons, IH.
  destruct (decide (c = ak)) as [->|Hak].
  - rewrite (decide_False (P := ak = hk)) by done.
    rewrite (coefficient_not_column cols coef ak) by done. ring.
  - destruct (decide (c = hk)) as [->|Hhk].
    + rewrite (coefficient_not_column cols coef hk) by done. ring.
    + ring.
Qed.

(** X1.  On a predictor that [fit] returned, [predict] returns a value
    exactly for a home identifier that was a home identifier of some
    training game together with an away identifier that was an away
    identifier of some training game; for every other pair it raises
    [ValueError]. *)
Theorem predict_returns_iff_seen self games_df p h a :
  fit lstsq self games_df = Ok p ->
  ((exists diff, predict p h a = Ok diff)
   <-> h ∈ home_ids games_df /\ a ∈ away_ids games_df)
  /\ (~ (h ∈ home_ids games_df /\ a ∈ away_ids games_df) ->
      predict p h a = Raise ValueError).
Proof.
  intros Hfit.
  assert (~ (h ∈ home_ids games_df /\ a ∈ away_ids games_df) ->
          predict p h a = Raise ValueError) as Hraise.
  { intros Hnot. apply (predict_unseen lstsq _ _ _ _ _ Hfit).
    destruct (decide (h ∈ home_ids games_df)); [|by left].
    right. intros Ha. by apply Hnot. }
  split; [|done]. split.
  - intros [diff Hd].
    destruct (decide (h ∈ home_ids games_df /\ a ∈ away_ids games_df))
      as [?|Hnot]; [done|].
    rewrite (Hraise Hnot) in Hd. done.
  - intros [Hh Ha].
    destruct (predict_seen lstsq _ _ _ _ _ Hfit Hh Ha) as (f & _ & ->). eauto.
Qed.

(** X2.  For identifiers seen at [fit] in their role, the predicted
    differential is the intercept plus the coefficient of the home team's
    home column plus the coefficient of the away team's away column; no
    other coefficient enters. *)
Theorem predict_adds_two_coefficients self games_df p h a :
  fit lstsq self games_df = Ok p ->
  h ∈ home_ids games_df -> a ∈ away_ids games_df ->
  exists f,
    model p = Some f
    /\ predict p h a
       = Ok (coefficient (columns_of games_df) (coef_ f)
               (home_column (pretty h))
             + coefficient (columns_of games_df) (coef_ f)
                 (away_column (pretty a))
             + intercept_ f)%Qc.
Proof.
  intros Hfit Hh Ha.
  destruct (predict_seen lstsq _ _ _ _ _ Hfit Hh Ha) as (f & Hf & ->).
  exists f. split; [done|]. do 2 f_equal.
  rewrite prediction_row_seen;
    [|apply NoDup_columns_of|by apply home_column_seen
     |by apply away_column_seen].
  apply dot_two_columns; [apply NoDup_columns_of|].
  apply home_column_ne_away.
Qed.

(** X3.  For identifiers seen at [fit] in their role, [predict_scores]
    returns the two halves of the total shifted by half the predicted
    differential: they add up to the total and differ by the
    differential.  Nothing keeps them non-negative. *)
Theorem predict_scores_splits_total self games_df p h a total :
  fit lstsq self games_df = Ok p ->
  h ∈ home_ids games_df -> a ∈ away_ids games_df ->
  exists diff home away,
    predict p h a = Ok diff
    /\ predict_scores p h a total = Ok (home, away)
    /\ (home + away = total)%Qc
    /\ (home - away = diff)%Qc.
Proof.
  intros Hfit Hh Ha.
  destruct (predict_seen lstsq _ _ _ _ _ Hfit Hh Ha) as (f & _ & Hp).
  eexists _, _, _. rewrite predict_scores_split, Hp.
  split_and!; try done; field; done.
Qed.

End PredictorValues.

(** ** model.py: the training frame *)

Section TrainingFrame.
Import Model.

Lemma increasing_unique l1 l2 :
  increasing l1 -> increasing l2 ->
  (forall x, x ∈ l1 <-> x ∈ l2) -> l1 = l2.
Proof.
  intros H1 H2 Hsame.
  assert (AntiSymm (=) (fun a b : string => String.ltb a b = true)) as Hanti.
  { intros a b Hab Hba. exfalso.
    apply (ltb_ne a a); [|done]. by eapply ltb_trans. }
  apply (StronglySorted_unique (fun a b => String.ltb a b = true)); try done.
  apply NoDup_Permutation; [by apply increasing_NoDup..|done].
Qed.

Lemma categories_same_set l1 l2 :
  (forall x, x ∈ l1 <-> x ∈ l2) -> categories l1 = categories l2.
Proof.
  intros Hsame. apply increasing_unique; try apply categories_increasing.
  intros x. by rewrite !elem_of_categories.
Qed.

Lemma pretty_same_set (l1 l2 : list Z) :
  (forall x, x ∈ l1 <-> x ∈ l2) ->
  forall s : string, s ∈ pretty <$> l1 <-> s ∈ pretty <$> l2.
Proof.
  intros Hsame s. rewrite !list_elem_of_fmap.
  split; intros (x & -> & Hx); exists x; (split; [done|]); by apply Hsame.
Qed.

(** X4.  The columns that [fit] stores depend only on which identifiers
    occur at home and which occur away, not on the order or the number of
    the games: two collections with the same home identifiers and the same
    away identifiers give the same columns in the same order.  The columns
    are pairwise distinct. *)
Theorem fit_columns_depend_on_identifier_sets games1 games2 :
  (forall x, x ∈ home_ids games1 <-> x ∈ home_ids games2) ->
  (forall x, x ∈ away_ids games1 <-> x ∈ away_ids games2) ->
  columns_of games1 = columns_of games2 /\ NoDup (columns_of games1).
Proof.
  intros Hhome Haway. split; [|apply NoDup_columns_of].
  rewrite !columns_of_eq. f_equal; f_equal.
  - by apply categories_same_set, pretty_same_set.
  - by apply categories_same_set, pretty_same_set.
Qed.

Lemma row_sum_app r1 r2 : (row_sum (r1 ++ r2) = row_sum r1 + row_sum r2)%Qc.
Proof.
  unfold row_sum. induction r1 as [|x r1 IH]; simpl; [ring|].
  rewrite IH. ring.
Qed.

Lemma row_sum_indicators (x : string) cats :
  NoDup cats ->
  row_sum ((fun c => indicator (bool_decide (x = c))) <$> cats)
  = if decide (x ∈ cats) then 1%Qc else 0%Qc.
Proof.
  induction 1 as [|c cats Hc Hnd IH]; [done|].
  cbn [fmap list_fmap]. unfold row_sum in *. cbn [foldr]. rewrite IH.
  destruct (decide (x = c)) as [->|Hne].
  - rewrite bool_decide_eq_true_2 by done.
    rewrite (decide_False (P := c ∈ cats)) by done.
    rewrite decide_True by left. simpl. ring.
  - rewrite bool_decide_eq_false_2 by done.
    destruct (decide (x ∈ cats)).
    + rewrite decide_True by (by right). simpl. ring.
    + rewrite decide_False; [simpl; ring|].
      rewrite not_elem_of_cons. done.
Qed.

(** The row of a game in the training frame, column by column. *)
Lemma indicator_row (h a : string) home_cats away_cats :
  ((fun c => indicator (bool_decide (h = c))) <$> home_cats)
  ++ ((fun c => indicator (bool_decide (a = c))) <$> away_cats)
  = (fun c => indicator (bool_decide (c = home_column h \/ c = away_column a)))
    <$> ((home_column <$> home_cats) ++ (away_column <$> away_cats)).
Proof.
  rewrite fmap_app, <- !list_fmap_compose. f_equal.
  - apply list_fmap_ext. intros _ c _. simpl. f_equal.
    apply bool_decide_ext. split.
    + intros ->. by left.
    + intros [Hc|Hc]; [by apply home_column_inj in Hc|].
      by apply home_column_ne_away in Hc.
  - apply list_fmap_ext. intros _ c _. simpl. f_equal.
    apply bool_decide_ext. split.
    + intros ->. by right.
    + intros [Hc|Hc]; [|by apply away_column_inj in Hc].
      symmetry in Hc. by apply home_column_ne_away in Hc.
Qed.


End TrainingFrame.

(** ** database.py: primary keys *)

Section Keys.
Import Database.

Section OneTable.
Context {A : Type} (rowid : A -> Z).
Implicit Types (r : A) (t : list A).

Lemma insert_row_increasing r t :
  StronglySorted (fun a b => rowid a < rowid b) t ->
  rowid r ∉ rowid <$> t ->
  StronglySorted (fun a b => rowid a < rowid b) (insert_row rowid r t).
Proof.
  induction 1 as [|r' t Ht IH Hr']; intros Hnew; simpl.
  - repeat constructor.
  - cbn [fmap list_fmap] in Hnew.
    apply not_elem_of_cons in Hnew as [Hne Hnew].
    case_decide as Hlt.
    + constructor; [by constructor|].
      constructor; [done|].
      eapply Forall_impl; [exact Hr'|]. simpl. intros; lia.
    + constructor; [by apply IH|].
      apply Forall_forall. intros x [->|Hx]%elem_of_insert_row; [lia|].
      by eapply Forall_forall in Hr'.
Qed.

Lemma keys_in_order_nil seq : keys_in_order rowid seq [].
Proof. split; constructor. Qed.

Lemma keys_in_order_next r seq t :
  rowid r = next_rowid rowid seq t ->
  keys_in_order rowid seq t ->
  keys_in_order rowid (rowid r) (insert_row rowid r t).
Proof.
  intros Hr [Hsorted Hbound].
  pose proof (next_rowid_fresh rowid seq t) as Hfresh. rewrite <- Hr in Hfresh.
  split.
  - apply insert_row_increasing; [done|].
    intros (r' & Heq & Hr')%list_elem_of_fmap.
    eapply Forall_forall in Hfresh; [|done]. lia.
  - apply Forall_forall. intros x [->|Hx]%elem_of_insert_row; [lia|].
    eapply Forall_forall in Hfresh; [|done]. lia.
Qed.

Lemma keys_in_order_explicit r seq t :
  rowid r ∉ rowid <$> t ->
  keys_in_order rowid seq t ->
  keys_in_order rowid (Z.max seq (rowid r)) (insert_row rowid r t).
Proof.
  intros Hnew [Hsorted Hbound]. split; [by apply insert_row_increasing|].
  apply Forall_forall. intros x [->|Hx]%elem_of_insert_row; [lia|].
  eapply Forall_forall in Hbound; [|done]. simpl in Hbound. lia.
Qed.

Lemma increasing_rowids_NoDup t :
  StronglySorted (fun a b => rowid a < rowid b) t -> NoDup (rowid <$> t).
Proof.
  induction 1 as [|r t Ht IH Hr]; cbn [fmap list_fmap]; constructor; [|done].
  intros (r' & Heq & Hr')%list_elem_of_fmap.
  eapply Forall_forall in Hr; [|done]. lia.
Qed.

End OneTable.

Lemma insert_team_well_keyed v s : well_keyed s -> well_keyed (insert_team v s).
Proof.
  intros (HT & HP & HG). split_and!; try done.
  by apply (keys_in_order_next team_id (mkTeam _ _ _) (seq_Teams s)).
Qed.

Lemma insert_player_well_keyed v s :
  well_keyed s -> well_keyed (insert_player v s).
Proof.
  intros (HT & HP & HG). split_and!; try done.
  by apply (keys_in_order_next player_id (mkPlayer _ _ _ _) (seq_Players s)).
Qed.

Lemma insert_game_well_keyed date home away hs vs s :
  well_keyed s -> well_keyed (insert_game date home away hs vs s).
Proof.
  intros (HT & HP & HG). split_and!; try done.
  by apply (keys_in_order_next game_id (mkGame _ _ _ _ _ _) (seq_Games s)).
Qed.

Lemma insert_or_ignore_team_well_keyed t s :
  well_keyed s -> well_keyed (insert_or_ignore_team t s).
Proof.
  intros (HT & HP & HG). unfold insert_or_ignore_team.
  case_decide as Hin; [done|]. split_and!; try done.
  by apply (keys_in_order_explicit team_id (team_row t)).
Qed.

Lemma insert_api_game_well_keyed g s :
  well_keyed s -> well_keyed (insert_api_game g s).
Proof.
  intros Hs. unfold insert_api_game.
  destruct (has_scores g); [by apply insert_game_well_keyed | done].
Qed.

Lemma populate_tables_well_keyed s :
  well_keyed s -> well_keyed (populate_tables s).
Proof.
  intros Hs. unfold populate_tables.
  apply executemany_preserves.
  { intros [[[[d h] a] hs] vs] s'. apply insert_game_well_keyed. }
  apply (executemany_preserves well_keyed);
    [intros; by apply insert_player_well_keyed|].
  apply (executemany_preserves well_keyed);
    [intros; by apply insert_team_well_keyed | done].
Qed.

Lemma api_import_well_keyed s num_games api_key api s' :
  well_keyed s ->
  populate_tables_from_api s num_games api_key api = Ok s' ->
  well_keyed s'.
Proof.
  intros (HT & HP & HG)
    (teams & games & _ & _ & ->)%populate_tables_from_api_Ok.
  apply (executemany_preserves well_keyed);
    [intros; by apply insert_api_game_well_keyed|].
  assert (well_keyed
            (executemany insert_or_ignore_team teams (delete_teams s)))
    as (HT' & HP' & HG').
  { apply (executemany_preserves well_keyed);
      [intros; by apply insert_or_ignore_team_well_keyed|].
    split_and!; try done. apply keys_in_order_nil. }
  split_and!; try done. apply keys_in_order_nil.
Qed.

Lemma reachable_well_keyed s : reachable s -> well_keyed s.
Proof.
  induction 1 as [|s _ IH|s n key api s' _ IH Himport].
  - split_and!; apply keys_in_order_nil.
  - by apply populate_tables_well_keyed.
  - by eapply api_import_well_keyed.
Qed.

(** X6.  In every store that provisioning and imports lead to, each of the
    three tables has its rows in strictly increasing id order with no id
    above the table's counter; so no primary key occurs twice, whatever ids
    the provider reports and however often the imports run. *)
Theorem reachable_primary_keys_unique s :
  reachable s ->
  well_keyed s
  /\ NoDup (team_id <$> Teams s)
  /\ NoDup (player_id <$> Players s)
  /\ NoDup (game_id <$> Games s).
Proof.
  intros Hwk%reachable_well_keyed.
  split; [done|].
  destruct Hwk as ([HT _] & [HP _] & [HG _]).
  split_and!; by apply increasing_rowids_NoDup.
Qed.

End Keys.

(** ** database.py: the fictional import *)

Section Seed.
Import Database.

Lemma insert_teams_appended rows s :
  let s' := executemany insert_team rows s in
  Players s' = Players s /\ Games s' = Games s
  /\ seq_Players s' = seq_Players s /\ seq_Games s' = seq_Games s
  /\ exists new,
       Teams s' = Teams s ++ new
       /\ Forall2 (fun v r => team_name r = v.1 /\ team_city r = v.2) rows new
       /\ Forall (fun r => seq_Teams s < team_id r
                           /\ Forall (fun r0 => team_id r0 < team_id r)
                                (Teams s)) new.
Proof.
  revert s. induction rows as [|v rows IH]; intros s; simpl.
  { split_and!; try done. exists []. by rewrite app_nil_r. }
  destruct (IH (insert_team v s)) as (HP & HG & HsP & HsG & new & HT & Hc & Hf).
  unfold executemany in *. rewrite HP, HG, HsP, HsG, HT. clear IH HP HG HsP HsG HT.
  split_and!; try done.
  pose proof (next_rowid_fresh team_id (seq_Teams s) (Teams s)) as Hfresh.
  assert (Teams (insert_team v s)
          = Teams s ++ [mkTeam (next_rowid team_id (seq_Teams s) (Teams s))
                          v.1 v.2]) as Hone
    by (simpl; by apply insert_row_last).
  eexists (_ :: new). rewrite Hone, <- app_assoc. split; [done|].
  split; [by constructor|].
  constructor.
  - split; [unfold next_rowid; simpl; lia | done].
  - eapply Forall_impl; [exact Hf|]. intros r [Hseq Hall].
    rewrite Hone in Hall. apply Forall_app in Hall as [Hall _].
    split; [|done]. simpl in Hseq. unfold next_rowid in Hseq. lia.
Qed.

Lemma insert_players_appended rows s :
  let s' := executemany insert_player rows s in
  Teams s' = Teams s /\ Games s' = Games s
  /\ seq_Teams s' = seq_Teams s /\ seq_Games s' = seq_Games s
  /\ exists new,
       Players s' = Players s ++ new
       /\ Forall2 (fun v r => player_name r = v.1.1
                              /\ player_team_id r = Some v.1.2
                              /\ player_position r = Some v.2) rows new
       /\ Forall (fun r => seq_Players s < player_id r
                           /\ Forall (fun r0 => player_id r0 < player_id r)
                                (Players s)) new.
Proof.
  revert s. induction rows as [|v rows IH]; intros s; simpl.
  { split_and!; try done. exists []. by rewrite app_nil_r. }
  destruct (IH (insert_player v s))
    as (HT & HG & HsT & HsG & new & HP & Hc & Hf).
  unfold executemany in *. rewrite HT, HG, HsT, HsG, HP. clear IH HT HG HsT HsG HP.
  split_and!; try done.
  pose proof (next_rowid_fresh player_id (seq_Players s) (Players s)) as Hfresh.
  assert (Players (insert_player v s)
          = Players s
            ++ [mkPlayer (next_rowid player_id (seq_Players s) (Players s))
                  v.1.1 (Some v.1.2) (Some v.2)]) as Hone
    by (simpl; by apply insert_row_last).
  eexists (_ :: new). rewrite Hone, <- app_assoc. split; [done|].
  split; [by constructor|].
  constructor.
  - split; [unfold next_rowid; simpl; lia | done].
  - eapply Forall_impl; [exact Hf|]. intros r [Hseq Hall].
    rewrite Hone in Hall. apply Forall_app in Hall as [Hall _].
    split; [|done]. simpl in Hseq. unfold next_rowid in Hseq. lia.
Qed.

Lemma insert_games_appended (rows : list (string * Z * Z * Z * Z)) s :
  let s' := executemany
              (fun '(d, h, a, hs, vs) =>
                 insert_game d (Some h) (Some a) (Some hs) (Some vs))
              rows s in
  Teams s' = Teams s /\ Players s' = Players s
  /\ seq_Teams s' = seq_Teams s /\ seq_Players s' = seq_Players s
  /\ exists new,
       Games s' = Games s ++ new
       /\ Forall2 (fun v r => game_date r = v.1.1.1.1
                              /\ home_team_id r = Some v.1.1.1.2
                              /\ away_team_id r = Some v.1.1.2
                              /\ home_score r = Some v.1.2
                              /\ away_score r = Some v.2) rows new
       /\ Forall (fun r => seq_Games s < game_id r
                           /\ Forall (fun r0 => game_id r0 < game_id r)
                                (Games s)) new.
Proof.
  revert s. induction rows as [|[[[[d h] a] hs] vs] rows IH]; intros s; simpl.
  { split_and!; try done. exists []. by rewrite app_nil_r. }
  destruct (IH (insert_game d (Some h) (Some a) (Some hs) (Some vs) s))
    as (HT & HP & HsT & HsP & new & HG & Hc & Hf).
  unfold executemany in *. rewrite HT, HP, HsT, HsP, HG. clear IH HT HP HsT HsP HG.
  split_and!; try done.
  pose proof (next_rowid_fresh game_id (seq_Games s) (Games s)) as Hfresh.
  eexists (_ :: new). rewrite Games_insert_game, <- app_assoc.
  split; [done|]. split; [by constructor|].
  constructor.
  - split; [unfold next_rowid; simpl; lia | done].
  - eapply Forall_impl; [exact Hf|]. intros r [Hseq Hall].
    rewrite Games_insert_game in Hall. apply Forall_app in Hall as [Hall _].
    split; [|done]. simpl in Hseq. unfold next_rowid in Hseq. lia.
Qed.

(** The rows that [populate_tables] appends. *)
Lemma populate_tables_rows s :
  exists teams players games,
    Teams (populate_tables s) = Teams s ++ teams
    /\ Players (populate_tables s) = Players s ++ players
    /\ Games (populate_tables s) = Games s ++ games
    /\ Forall2 (fun v r => team_name r = v.1 /\ team_city r = v.2)
         seed_teams teams
    /\ Forall2 (fun v r => player_name r = v.1.1
                           /\ player_team_id r = Some v.1.2
                           /\ player_position r = Some v.2)
         seed_players players
    /\ Forall2 (fun v r => game_date r = v.1.1.1.1
                           /\ home_team_id r = Some v.1.1.1.2
                           /\ away_team_id r = Some v.1.1.2
                           /\ home_score r = Some v.1.2
                           /\ away_score r = Some v.2)
         seed_games games
    /\ Forall (fun r => seq_Teams s < team_id r
                        /\ Forall (fun r0 => team_id r0 < team_id r) (Teams s))
         teams
    /\ Forall (fun r => seq_Players s < player_id r
                        /\ Forall (fun r0 => player_id r0 < player_id r)
                             (Players s))
         players
    /\ Forall (fun r => seq_Games s < game_id r
                        /\ Forall (fun r0 => game_id r0 < game_id r) (Games s))
         games.
Proof.
  unfold populate_tables.
  destruct (insert_teams_appended seed_teams s)
    as (HP1 & HG1 & HsP1 & HsG1 & teams & HT1 & Hct & Hft).
  set (s1 := executemany insert_team seed_teams s) in *.
  destruct (insert_players_appended seed_players s1)
    as (HT2 & HG2 & HsT2 & HsG2 & players & HP2 & Hcp & Hfp).
  set (s2 := executemany insert_player seed_players s1) in *.
  destruct (insert_games_appended seed_games s2)
    as (HT3 & HP3 & HsT3 & HsP3 & games & HG3 & Hcg & Hfg).
  cbv zeta in *.
  exists teams, players, games.
  rewrite HT3, HT2, HT1, HP3, HP2, HP1, HG3, HG2, HG1.
  rewrite HsP1, HP1 in Hfp. rewrite HsG2, HsG1, HG2, HG1 in Hfg.
  split_and!; done.
Qed.


End Seed.

(** ** database.py: where the team references do resolve *)

Section SeedReferences.
Import Database.

(** The fictional import keeps the references resolving exactly when the
    ids 1 to 4, which its games name, are ids of Teams afterwards. *)
Lemma populate_tables_references_resolve_iff s :
  references_resolve s ->
  references_resolve (populate_tables s)
  <-> (forall i, 1 <= i <= 4 -> i ∈ team_id <$> Teams (populate_tables s)).
Proof.
  intros Hs.
  destruct (populate_tables_rows s)
    as (teams & players & games & HT & _ & HG & _ & _ & Hseed & _).
  split.
  - intros Hres i Hi.
    assert (exists g, g ∈ games /\ home_team_id g = Some i) as (g & Hg & Hgi).
    { unfold seed_games in Hseed.
      repeat match goal with
             | H : Forall2 _ (_ :: _) _ |- _ =>
                 apply Forall2_cons_inv_l in H
                   as (? & ? & (_ & ? & _) & ? & ?);
                   subst
             end.
      assert (i = 1 \/ i = 2 \/ i = 3 \/ i = 4) as [-> | [-> | [-> | ->]]]
        by lia.
      - eexists. split; [left|]. done.
      - eexists. split; [do 3 right; left|]. done.
      - eexists. split; [right; left|]. done.
      - eexists. split; [do 4 right; left|]. done. }
    destruct (Hres g) as [Hhome _].
    { rewrite HG. apply elem_of_app. by right. }
    rewrite Hgi in Hhome. by apply resolves_elem_of in Hhome.
  - intros Hids g. rewrite HG. intros [Hg|Hg]%elem_of_app.
    + destruct (Hs g Hg) as [Hhome Haway].
      assert (forall ref, resolves s ref -> resolves (populate_tables s) ref)
        as Hmono.
      { intros [i|]; [|done]. intros (t & Ht & Hid).
        exists t. split; [|done]. rewrite HT. apply elem_of_app. by left. }
      split; by apply Hmono.
    + destruct (Forall2_elem_of_r _ _ _ _ Hseed Hg)
        as (v & Hv & _ & Hhome & Haway & _).
      rewrite Hhome, Haway, !resolves_elem_of.
      unfold seed_games in Hv.
      repeat (apply elem_of_cons in Hv as [->|Hv];
              [split; apply Hids; simpl; lia|]).
      by apply elem_of_nil in Hv.
Qed.

(** So it keeps them resolving on every store that holds teams 1 to 4. *)
Lemma populate_tables_keeps_references s :
  references_resolve s ->
  (forall i, 1 <= i <= 4 -> i ∈ team_id <$> Teams s) ->
  references_resolve (populate_tables s).
Proof.
  intros Hs Hids. apply populate_tables_references_resolve_iff; [done|].
  intros i Hi.
  destruct (populate_tables_rows s) as (teams & _ & _ & HT & _).
  rewrite HT, fmap_app. apply elem_of_app. left. by apply Hids.
Qed.

(** Provisioning followed by any number of fictional imports, the default
    path of the driver, leaves every reference resolving. *)
Lemma fictional_runs_references_resolve n :
  references_resolve (Nat.iter n populate_tables (create_tables None)).
Proof.
  assert (references_resolve (Nat.iter n populate_tables (create_tables None))
          /\ (n <> 0%nat ->
              forall i, 1 <= i <= 4 ->
                i ∈ team_id
                    <$> Teams (Nat.iter n populate_tables (create_tables None))))
    as [H _]; [|done].
  induction n as [|n [IHres IHids]].
  - split; [|done]. by intros g Hg%elem_of_nil.
  - cbn [Nat.iter nat_rect].
    assert (forall i, 1 <= i <= 4 ->
              i ∈ team_id
                  <$> Teams (populate_tables
                               (Nat.iter n populate_tables
                                  (create_tables None)))) as Hids.
    { destruct n as [|n].
      - intros i Hi.
        assert (i = 1 \/ i = 2 \/ i = 3 \/ i = 4) as [-> | [-> | [-> | ->]]]
          by lia; vm_compute; repeat constructor.
      - intros i Hi.
        destruct (populate_tables_rows
                    (Nat.iter (S n) populate_tables (create_tables None)))
          as (teams & _ & _ & HT & _).
        rewrite HT, fmap_app. apply elem_of_app. left. by apply IHids. }
    split; [|done].
    by apply populate_tables_references_resolve_iff.
Qed.

End SeedReferences.

(** ** database.py: what the game fetch returns *)

Section PagingOutcome.
Import Database.

Variables (api : Api) (hdr : option string) (num_games : Z).

Lemma accumulated_mono page j k :
  (j <= k)%nat -> (accumulated api hdr page j <= accumulated api hdr page k)%nat.
Proof.
  revert page k. induction j as [|j IH]; intros page [|k] Hle; simpl; try lia.
  specialize (IH (page + 1) k). lia.
Qed.

Lemma pages_data_length page k :
  length (pages_data api hdr page k) = accumulated api hdr page k.
Proof.
  revert page. induction k as [|k IH]; intros page; simpl; [done|].
  by rewrite length_app, IH.
Qed.

(** [k] rounds of the loop, each on a non-empty page and with fewer than
    [num_games] games held. *)
Lemma fetch_loop_rounds k fuel games page :
  (Z.to_nat (num_games - Z.of_nat (length games)) <= fuel)%nat ->
  (forall j, (j < k)%nat -> nonempty_page api hdr (page + Z.of_nat j)) ->
  (forall j, (j < k)%nat ->
     Z.of_nat (length games + accumulated api hdr page j) < num_games) ->
  fetch_loop api hdr num_games fuel games page
  = ((fetch_loop api hdr num_games fuel
        (games ++ pages_data api hdr page k) (page + Z.of_nat k)).1,
     ((fun j => page + Z.of_nat j) <$> seq 0 k)
     ++ (fetch_loop api hdr num_games fuel
           (games ++ pages_data api hdr page k) (page + Z.of_nat k)).2).
Proof.
  revert games page. induction k as [|k IH]; intros games page Hfuel Hne Hlt.
  - simpl. rewrite app_nil_r, Z.add_0_r. by destruct (fetch_loop _ _ _ _ _ _).
  - rewrite fetch_loop_while by done.
    pose proof (Hlt 0%nat ltac:(lia)) as Hguard. simpl in Hguard.
    rewrite decide_True by lia.
    destruct (Hne 0%nat ltac:(lia)) as (data & Hpage & Hdata).
    rewrite Z.add_0_r in Hpage. rewrite Hpage.
    destruct data as [|g data]; [done|].
    rewrite (IH (games ++ g :: data) (page + 1)).
    + cbn [fst snd pages_data]. unfold page_data. rewrite Hpage.
      rewrite <- !app_assoc.
      replace (page + 1 + Z.of_nat k) with (page + Z.of_nat (S k)) by lia.
      f_equal. cbn [seq fmap list_fmap]. rewrite Z.add_0_r. simpl. f_equal.
      rewrite <- fmap_S_seq, <- list_fmap_compose. f_equal.
      apply list_fmap_ext. intros _ j _. simpl. lia.
    + rewrite length_app. lia.
    + intros j Hj.
      replace (page + 1 + Z.of_nat j) with (page + Z.of_nat (S j)) by lia.
      apply Hne. lia.
    + intros j Hj. specialize (Hlt (S j) ltac:(lia)). simpl in Hlt.
      unfold page_data in Hlt at 1. rewrite Hpage in Hlt.
      rewrite length_app. lia.
Qed.

End PagingOutcome.

Section FetchOutcome.
Import Database.

Variables (api : Api) (api_key : option string) (num_games : Z).

Lemma pages_from_one k :
  (fun j => 1 + Z.of_nat j) <$> seq 0 k = Z.of_nat <$> seq 1 k.
Proof.
  rewrite <- fmap_S_seq, <- list_fmap_compose.
  apply list_fmap_ext. intros _ j _. simpl. lia.
Qed.

Lemma fetch_after_rounds k :
  (forall j, (j < k)%nat ->
     nonempty_page api (headers api_key) (1 + Z.of_nat j)) ->
  (forall j, (j < k)%nat ->
     Z.of_nat (accumulated api (headers api_key) 1 j) < num_games) ->
  fetch_loop api (headers api_key) num_games (Z.to_nat num_games) [] 1
  = ((fetch_loop api (headers api_key) num_games (Z.to_nat num_games)
        (pages_data api (headers api_key) 1 k) (1 + Z.of_nat k)).1,
     (Z.of_nat <$> seq 1 k)
     ++ (fetch_loop api (headers api_key) num_games (Z.to_nat num_games)
           (pages_data api (headers api_key) 1 k) (1 + Z.of_nat k)).2).
Proof.
  intros Hne Hlt. rewrite <- pages_from_one.
  rewrite (fetch_loop_rounds api (headers api_key) num_games k); [done| |done|done].
  simpl. lia.
Qed.

(** X8.  When the provider runs out of games first (pages 1 to [k] hold
    games, fewer than [num_games] together, and page [k+1] is empty), the
    fetch requests the pages 1 to [k+1] and returns every game of the
    pages 1 to [k], in page order, none dropped. *)
Theorem fetch_returns_all_games_of_short_provider k :
  (forall j, (j < k)%nat ->
     nonempty_page api (headers api_key) (1 + Z.of_nat j)) ->
  Z.of_nat (accumulated api (headers api_key) 1 k) < num_games ->
  get_games api (headers api_key) per_page (1 + Z.of_nat k) = Ok [] ->
  fetch_games_from_api_log num_games api_key api
  = (Ok (pages_data api (headers api_key) 1 k), Z.of_nat <$> seq 1 (S k)).
Proof.
  intros Hne Hlt Hempty. unfold fetch_games_from_api_log.
  rewrite (fetch_after_rounds k); [|done|].
  2:{ intros j Hj.
      pose proof (accumulated_mono api (headers api_key) 1 j k ltac:(lia)).
      lia. }
  rewrite fetch_loop_while.
  2:{ rewrite pages_data_length. lia. }
  rewrite pages_data_length, decide_True by lia. rewrite Hempty.
  cbn [fst snd mbind result_bind].
  f_equal.
  - f_equal. unfold slice_to. rewrite decide_True by lia.
    apply take_ge. rewrite pages_data_length. lia.
  - rewrite seq_S, fmap_app. simpl. do 2 f_equal. lia.
Qed.

(** X9.  When the count is reached first (pages 1 to [k+1] hold games,
    the first [k] of them fewer than [num_games] together and all [k+1] at
    least [num_games]), the fetch requests exactly the pages 1 to [k+1] and
    returns the first [num_games] games of those pages: the surplus of the
    last page is cut off. *)
Theorem fetch_returns_first_games_of_long_provider k :
  (forall j, (j <= k)%nat ->
     nonempty_page api (headers api_key) (1 + Z.of_nat j)) ->
  Z.of_nat (accumulated api (headers api_key) 1 k) < num_games ->
  num_games <= Z.of_nat (accumulated api (headers api_key) 1 (S k)) ->
  fetch_games_from_api_log num_games api_key api
  = (Ok (take (Z.to_nat num_games)
           (pages_data api (headers api_key) 1 (S k))),
     Z.of_nat <$> seq 1 (S k)).
Proof.
  intros Hne Hlt Hge. unfold fetch_games_from_api_log.
  rewrite (fetch_after_rounds (S k)).
  2:{ intros j Hj. apply Hne. lia. }
  2:{ intros j Hj.
      pose proof (accumulated_mono api (headers api_key) 1 j k ltac:(lia)).
      lia. }
  rewrite fetch_loop_while.
  2:{ rewrite pages_data_length. lia. }
  rewrite pages_data_length, decide_False by lia.
  cbn [fst snd mbind result_bind].
  rewrite app_nil_r. f_equal. f_equal.
  unfold slice_to. rewrite decide_True by lia. done.
Qed.

(** X10.  A request that raises ends the import with that exception and
    nothing is committed: when [GET teams] raises, and when a games page
    raises after [k] non-empty pages that held fewer than [num_games]
    games, [setup_database] leaves the store as provisioning found it, with
    Teams as it was although its rows had been deleted and replaced
    by then. *)
Theorem failed_request_commits_nothing db k e :
  (get_teams api (headers api_key) = Raise e ->
   setup_database db true num_games api_key api = (create_tables db, Raise e))
  /\ (forall teams,
        get_teams api (headers api_key) = Ok teams ->
        (forall j, (j < k)%nat ->
           nonempty_page api (headers api_key) (1 + Z.of_nat j)) ->
        Z.of_nat (accumulated api (headers api_key) 1 k) < num_games ->
        get_games api (headers api_key) per_page (1 + Z.of_nat k) = Raise e ->
        fetch_games_from_api_log num_games api_key api
        = (Raise e, Z.of_nat <$> seq 1 (S k))
        /\ setup_database db true num_games api_key api
           = (create_tables db, Raise e)).
Proof.
  split.
  - intros Hteams. unfold setup_database, populate_tables_from_api,
      fetch_teams_from_api. by rewrite Hteams.
  - intros teams Hteams Hne Hlt Hraise.
    assert (fetch_games_from_api_log num_games api_key api
            = (Raise e, Z.of_nat <$> seq 1 (S k))) as Hfetch.
    { unfold fetch_games_from_api_log.
      rewrite (fetch_after_rounds k); [|done|].
      2:{ intros j Hj.
          pose proof (accumulated_mono api (headers api_key) 1 j k ltac:(lia)).
          lia. }
      rewrite fetch_loop_while.
      2:{ rewrite pages_data_length. lia. }
      rewrite pages_data_length, decide_True by lia. rewrite Hraise.
      cbn [fst snd mbind result_bind].
      f_equal. rewrite seq_S, fmap_app. simpl. do 2 f_equal. lia. }
    split; [done|].
    unfold setup_database, populate_tables_from_api, fetch_teams_from_api,
      fetch_games_from_api.
    rewrite Hteams, Hfetch. done.
Qed.

End FetchOutcome.

(** ** database.py: what the API import stores *)

Section ImportContent.
Import Database.

Lemma team_ids_insert_or_ignore t s x :
  x ∈ team_id <$> Teams (insert_or_ignore_team t s)
  <-> x ∈ team_id <$> Teams s \/ x = api_id t.
Proof.
  unfold insert_or_ignore_team. case_decide as Hin; simpl.
  - split; [by left|]. by intros [?| ->].
  - rewrite !list_elem_of_fmap. split.
    + intros (r & -> & [->|Hr]%elem_of_insert_row); [by right|].
      left. eauto.
    + intros [(r & -> & Hr)| ->].
      * exists r. split; [done|]. apply elem_of_insert_row. by right.
      * exists (team_row t). split; [done|]. apply elem_of_insert_row. by left.
Qed.

Lemma teams_insert_or_ignore t s r :
  r ∈ Teams (insert_or_ignore_team t s)
  <-> r ∈ Teams s \/ ((api_id t ∉ team_id <$> Teams s) /\ r = team_row t).
Proof.
  unfold insert_or_ignore_team. case_decide; simpl; [tauto|].
  rewrite elem_of_insert_row. tauto.
Qed.

(** The rows that the [for t in teams] loop adds: for each id that is not
    taken, the first fetched team with that id. *)
Lemma insert_api_teams_first teams s r :
  r ∈ Teams (executemany insert_or_ignore_team teams s)
  <-> r ∈ Teams s
      \/ exists l1 t l2,
           teams = l1 ++ t :: l2 /\ r = team_row t
           /\ (api_id t ∉ team_id <$> Teams s)
           /\ (api_id t ∉ api_id <$> l1).
Proof.
  revert s. induction teams as [|t teams IH]; intros s.
  - simpl. split; [by left|]. intros [?|(l1 & t & l2 & Heq & _)]; [done|].
    by destruct l1.
  - change (executemany insert_or_ignore_team (t :: teams) s)
      with (executemany insert_or_ignore_team teams
              (insert_or_ignore_team t s)).
    rewrite IH. split.
    + intros [[Hr|[Hnew ->]]%teams_insert_or_ignore
             |(l1 & t' & l2 & -> & -> & Hnot & Hfirst)].
      * by left.
      * right. exists [], t, teams. split_and!; try done. apply not_elem_of_nil.
      * right. exists (t :: l1), t', l2.
        rewrite team_ids_insert_or_ignore in Hnot.
        split_and!; try done; [tauto|].
        cbn [fmap list_fmap]. rewrite not_elem_of_cons. split; [|done].
        intros Heq. apply Hnot. by right.
    + intros [Hr|(l1 & t' & l2 & Heq & -> & Hnot & Hfirst)].
      * left. apply teams_insert_or_ignore. by left.
      * destruct l1 as [|t0 l1]; simpl in Heq; injection Heq as <- ->.
        -- left. apply teams_insert_or_ignore. by right.
        -- right. exists l1, t', l2.
           cbn [fmap list_fmap] in Hfirst.
           apply not_elem_of_cons in Hfirst as [Hne Hfirst].
           split_and!; try done.
           rewrite team_ids_insert_or_ignore. tauto.
Qed.

(** X11.  After a committed API import the rows of Teams are the fetched
    teams, one for each id: when the provider lists an id more than once,
    the first listing is stored and the later ones are skipped. *)
Theorem api_import_keeps_first_team_of_each_id
    s num_games api_key api s' teams r :
  populate_tables_from_api s num_games api_key api = Ok s' ->
  fetch_teams_from_api api_key api = Ok teams ->
  r ∈ Teams s'
  <-> exists l1 t l2,
        teams = l1 ++ t :: l2 /\ r = team_row t
        /\ (api_id t ∉ api_id <$> l1).
Proof.
  intros (teams' & games & Ht & _ & ->)%populate_tables_from_api_Ok.
  rewrite Ht. intros [= <-].
  destruct (insert_api_games games
              (delete_games
                 (executemany insert_or_ignore_team teams' (delete_teams s))))
    as (HT & _).
  rewrite HT. simpl. rewrite insert_api_teams_first. simpl. split.
  - intros [Hr|(l1 & t & l2 & ? & ? & _ & ?)];
      [by apply elem_of_nil in Hr | eauto 7].
  - intros (l1 & t & l2 & ? & ? & ?). right. exists l1, t, l2.
    split_and!; try done. apply not_elem_of_nil.
Qed.

Lemma insert_api_teams_from_Teams teams s1 s2 :
  Teams s1 = Teams s2 ->
  Teams (executemany insert_or_ignore_team teams s1)
  = Teams (executemany insert_or_ignore_team teams s2).
Proof.
  revert s1 s2. induction teams as [|t teams IH]; intros s1 s2 Heq; [done|].
  apply IH. unfold insert_or_ignore_team. rewrite Heq.
  by case_decide.
Qed.

Lemma stored_as_same_game g r1 r2 :
  stored_as g r1 -> stored_as g r2 -> same_game r1 r2.
Proof.
  intros (? & ? & ? & ? & ?) (? & ? & ? & ? & ?).
  repeat split; congruence.
Qed.

Lemma Forall2_common_left {A B} (P : A -> B -> Prop) (Q : B -> B -> Prop)
    l k1 k2 :
  (forall x y1 y2, P x y1 -> P x y2 -> Q y1 y2) ->
  Forall2 P l k1 -> Forall2 P l k2 -> Forall2 Q k1 k2.
Proof.
  intros HQ H1. revert k2.
  induction H1 as [|x y1 l k1 Hxy1 _ IH]; intros k2 H2.
  - apply Forall2_nil_inv_l in H2 as ->. constructor.
  - apply Forall2_cons_inv_l in H2 as (y2 & k2' & Hxy2 & H2 & ->).
    constructor; eauto.
Qed.

(** X12.  The API import replaces wholesale: run with the same provider,
    count and credential on two different stores, it commits on both or on
    neither, and then both hold the same Teams rows and, row for row, the
    same games; only the game ids, which continue each store's counter,
    may differ.  Players stays what each store had. *)
Theorem api_import_forgets_former_rows sa sb num_games api_key api sa' :
  populate_tables_from_api sa num_games api_key api = Ok sa' ->
  exists sb',
    populate_tables_from_api sb num_games api_key api = Ok sb'
    /\ Teams sb' = Teams sa'
    /\ Forall2 same_game (Games sa') (Games sb')
    /\ Players sa' = Players sa /\ Players sb' = Players sb.
Proof.
  intros Ha.
  pose proof Ha as (teams & games & Ht & Hg & Hsa)%populate_tables_from_api_Ok.
  assert (populate_tables_from_api sb num_games api_key api
          = Ok (executemany insert_api_game games
                  (delete_games
                     (executemany insert_or_ignore_team teams
                        (delete_teams sb))))) as Hb.
  { unfold populate_tables_from_api. by rewrite Ht, Hg. }
  eexists. split; [exact Hb|].
  pose proof Ha as (ta & ga & Hta & Hga & HPa & _ & _ & Hrowsa)%api_import_tables.
  pose proof Hb as (tb & gb & Htb & Hgb & HPb & _ & _ & Hrowsb)%api_import_tables.
  rewrite Hg in Hga, Hgb. injection Hga as <-. injection Hgb as <-.
  split_and!; try done.
  - subst sa'.
    destruct (insert_api_games games
                (delete_games
                   (executemany insert_or_ignore_team teams (delete_teams sa))))
      as (HTa & _).
    destruct (insert_api_games games
                (delete_games
                   (executemany insert_or_ignore_team teams (delete_teams sb))))
      as (HTb & _).
    rewrite HTa, HTb. simpl. by apply insert_api_teams_from_Teams.
  - eapply Forall2_common_left; [|exact Hrowsa|exact Hrowsb].
    intros g r1 r2. apply stored_as_same_game.
Qed.

End ImportContent.

(** ** data_loader.py: the frames of a reachable store *)

Section Frames.
Import Database DataLoader.

Lemma remove_dups_NoDup {A} `{EqDecision A} (l : list A) :
  NoDup l -> remove_dups l = l.
Proof.
  induction 1 as [|x l Hx Hnd IH]; simpl; [done|].
  destruct (decide_rel elem_of x l); [done|]. by rewrite IH.
Qed.

Lemma drop_duplicates_NoDup {A} `{EqDecision A} (df : list A) :
  NoDup df -> drop_duplicates df = df.
Proof.
  intros Hnd. unfold drop_duplicates.
  rewrite remove_dups_NoDup by by rewrite reverse_Permutation.
  apply reverse_involutive.
Qed.

Lemma populate_tables_complete s :
  Forall complete_game (Games s) -> Forall complete_player (Players s) ->
  Forall complete_game (Games (populate_tables s))
  /\ Forall complete_player (Players (populate_tables s)).
Proof.
  intros HG HP.
  destruct (populate_tables_rows s)
    as (teams & players & games & _ & -> & -> & _ & Hp & Hg & _).
  split; apply Forall_app; (split; [done|]).
  - clear -Hg. induction Hg as [|v r ? ? (_ & Hh & Ha & Hhs & Hvs) _ IH];
      constructor; [|done].
    unfold complete_game. rewrite Hh, Ha, Hhs, Hvs. eauto.
  - clear -Hp. induction Hp as [|v r ? ? (_ & Ht & Hpos) _ IH];
      constructor; [|done].
    unfold complete_player. rewrite Ht, Hpos. eauto.
Qed.

Lemma api_import_complete s num_games api_key api s' :
  populate_tables_from_api s num_games api_key api = Ok s' ->
  Forall complete_game (Games s').
Proof.
  intros (_ & games & _ & _ & _ & _ & _ & Hrows)%api_import_tables.
  apply Forall_forall. intros r Hr.
  destruct (Forall2_elem_of_r _ _ _ _ Hrows Hr) as (g & Hg & Hst).
  apply list_elem_of_filter in Hg as [[Hh Hv]%has_scores_spec _].
  destruct Hst as (_ & Hhome & Haway & Hhs & Hvs).
  unfold complete_game. rewrite Hhome, Haway, Hhs, Hvs.
  split_and!; eauto; by apply not_eq_None_Some.
Qed.

Lemma reachable_complete s :
  reachable s ->
  Forall complete_game (Games s) /\ Forall complete_player (Players s).
Proof.
  induction 1 as [|s _ [IHg IHp]|s n key api s' _ [IHg IHp] Himport].
  - split; constructor.
  - by apply populate_tables_complete.
  - split; [by eapply api_import_complete|].
    by apply api_import_tables in Himport as (? & ? & _ & _ & -> & _).
Qed.

(** X13.  On every reachable store, cleaning changes nothing: no row is
    dropped as a duplicate (primary keys are unique) and no null is there
    to fill, so the three frames hold the rows of the three tables, in
    table order, with the stored values; in particular no score and no
    team reference of a game is replaced by 0. *)
Theorem preprocess_data_keeps_reachable_rows s :
  reachable s ->
  (preprocess_data (load_data s)).1.1 = Teams s
  /\ Forall2 (fun r p => df_player_id p = player_id r
                         /\ df_player_name p = player_name r
                         /\ (exists z, player_team_id r = Some z
                                       /\ df_player_team_id p = CInt z)
                         /\ player_position r = Some (df_player_position p))
       (Players s) (preprocess_data (load_data s)).1.2
  /\ Forall2 (fun r g => df_id g = game_id r
                         /\ df_date g = game_date r
                         /\ home_team_id r = Some (df_home_team_id g)
                         /\ away_team_id r = Some (df_away_team_id g)
                         /\ home_score r = Some (df_home_score g)
                         /\ away_score r = Some (df_away_score g))
       (Games s) (preprocess_data (load_data s)).2.
Proof.
  intros Hs.
  destruct (reachable_well_keyed s Hs) as ([HT _] & [HP _] & [HG _]).
  destruct (reachable_complete s Hs) as [Hgames Hplayers].
  simpl.
  rewrite !drop_duplicates_NoDup;
    try (eapply NoDup_fmap_1; by apply increasing_rowids_NoDup).
  split_and!; [done| |].
  - apply Forall2_fmap_r, Forall_Forall2_diag.
    eapply Forall_impl; [exact Hplayers|].
    intros r [[z Hz] [pos Hpos]]. simpl. rewrite Hz, Hpos. simpl.
    split_and!; eauto.
  - apply Forall2_fmap_r, Forall_Forall2_diag.
    eapply Forall_impl; [exact Hgames|].
    intros r ([h Hh] & [a Ha] & [hs Hhs] & [vs Hvs]). simpl.
    rewrite Hh, Ha, Hhs, Hvs. done.
Qed.

End Frames.

(** ** main.py: the matchup loop *)

Section LoopFacts.
Import Main.

Variable py_int : string -> result Z.
Variable format_1f : Qc -> string.
Variable str_exn : exn -> string.

#[local] Abbreviation matchup_round :=
  (Main.matchup_round py_int format_1f str_exn).
#[local] Abbreviation matchup_loop :=
  (Main.matchup_loop py_int format_1f str_exn).
#[local] Abbreviation main_loop := (Main.main_loop py_int format_1f str_exn).

(** A round catches whatever is raised in it: it ends normally, reads no
    line and leaves the database file alone. *)
Lemma matchup_round_ends s h a w :
  exists w',
    matchup_round s h a w = (Ok tt, w')
    /\ stdin w' = stdin w /\ db w' = db w.
Proof.
  unfold Main.matchup_round, try_except_as, mbind, IO_bind, lift, print.
  destruct (py_int h) as [hi|e]; [|eexists; simpl; eauto].
  destruct (py_int a) as [ai|e]; [|eexists; simpl; eauto].
  case_decide; [eexists; simpl; eauto|].
  case_decide; [eexists; simpl; eauto|].
  destruct (Model.predict_scores _ _ _ _) as [[hs vs]|e];
    [|eexists; simpl; eauto].
  simpl.
  destruct (team_name_of s hi) as [hn|e]; [|eexists; simpl; eauto].
  simpl.
  destruct (team_name_of s ai) as [an|e]; eexists; simpl; eauto.
Qed.

(** One round of the loop, by the lines that are waiting. *)
Lemma matchup_loop_round fuel s w :
  matchup_loop (S fuel) s w
  = match stdin w with
    | [] =>
        (Raise EOFError,
         mkWorld [] (stdout w ++ [round_banner; home_prompt]) (db w))
    | h :: rest =>
        if decide (lower (strip h) = "q"%string) then
          (Ok tt, mkWorld rest (stdout w ++ [round_banner; home_prompt])
                    (db w))
        else
          match rest with
          | [] =>
              (Raise EOFError,
               mkWorld [] (stdout w
                           ++ [round_banner; home_prompt; away_prompt])
                 (db w))
          | a :: rest' =>
              if decide (lower (strip a) = "q"%string) then
                (Ok tt,
                 mkWorld rest' (stdout w
                                ++ [round_banner; home_prompt; away_prompt])
                   (db w))
              else
                matchup_loop fuel s
                  (matchup_round s (strip h) (strip a)
                     (mkWorld rest'
                        (stdout w
                         ++ [round_banner; home_prompt; away_prompt])
                        (db w))).2
          end
    end.
Proof.
  cbn [Main.matchup_loop]. unfold mbind, IO_bind, print, input, mret, IO_ret.
  cbn [stdin stdout db].
  destruct (stdin w) as [|h rest]; [by rewrite <- app_assoc|].
  case_decide; [by rewrite <- app_assoc|].
  cbn [stdin stdout db].
  destruct rest as [|a rest']; [by rewrite <- !app_assoc|].
  case_decide; [by rewrite <- !app_assoc|].
  rewrite <- !app_assoc. cbn [app].
  destruct (matchup_round_ends s (strip h) (strip a)
              (mkWorld rest'
                 (stdout w ++ [round_banner; home_prompt; away_prompt])
                 (db w))) as (w' & Hround & _).
  unfold round_banner, home_prompt, away_prompt in *.
  by rewrite Hround.
Qed.

(** Rounds beyond the number of waiting lines are never made. *)
Lemma matchup_loop_fuel fuel fuel' s w :
  (length (stdin w) < fuel)%nat -> (length (stdin w) < fuel')%nat ->
  matchup_loop fuel s w = matchup_loop fuel' s w.
Proof.
  revert fuel' w. induction fuel as [|fuel IH]; intros [|fuel'] w Hf Hf';
    try lia.
  rewrite !matchup_loop_round.
  destruct (stdin w) as [|h [|a rest]] eqn:Hin; try done.
  repeat case_decide; try done.
  destruct (matchup_round_ends s (strip h) (strip a)
              (mkWorld rest
                 (stdout w ++ [round_banner; home_prompt; away_prompt])
                 (db w))) as (w' & Hround & Hin' & _).
  rewrite Hround. simpl in *. apply IH; rewrite Hin'; simpl; lia.
Qed.

Lemma main_loop_round s w :
  main_loop s w
  = match stdin w with
    | [] =>
        (Raise EOFError,
         mkWorld [] (stdout w ++ [round_banner; home_prompt]) (db w))
    | h :: rest =>
        if decide (lower (strip h) = "q"%string) then
          (Ok tt, mkWorld rest (stdout w ++ [round_banner; home_prompt])
                    (db w))
        else
          match rest with
          | [] =>
              (Raise EOFError,
               mkWorld [] (stdout w
                           ++ [round_banner; home_prompt; away_prompt])
                 (db w))
          | a :: rest' =>
              if decide (lower (strip a) = "q"%string) then
                (Ok tt,
                 mkWorld rest' (stdout w
                                ++ [round_banner; home_prompt; away_prompt])
                   (db w))
              else
                main_loop s
                  (matchup_round s (strip h) (strip a)
                     (mkWorld rest'
                        (stdout w
                         ++ [round_banner; home_prompt; away_prompt])
                        (db w))).2
          end
    end.
Proof.
  unfold Main.main_loop. rewrite matchup_loop_round.
  destruct (stdin w) as [|h [|a rest]] eqn:Hin; try done.
  repeat case_decide; try done.
  destruct (matchup_round_ends s (strip h) (strip a)
              (mkWorld rest
                 (stdout w ++ [round_banner; home_prompt; away_prompt])
                 (db w))) as (w' & Hround & Hin' & _).
  rewrite Hround. cbn [snd].
  apply matchup_loop_fuel; rewrite Hin'; simpl; lia.
Qed.

Lemma main_loop_ends s w :
  exists w',
    (main_loop s w = (Ok tt, w')
     \/ (main_loop s w = (Raise EOFError, w') /\ stdin w' = []))
    /\ db w' = db w
    /\ stdin w' `suffix_of` stdin w.
Proof.
  remember (length (stdin w)) as n eqn:Hn.
  revert w Hn. induction (lt_wf n) as [n _ IH]; intros w Hn.
  rewrite main_loop_round.
  destruct (stdin w) as [|h [|a rest]] eqn:Hin.
  - eexists. split; [right; split; done|]. split; [done|]. simpl. done.
  - case_decide.
    + eexists. split; [by left|]. split; [done|]. simpl. by exists [h].
    + eexists. split; [right; split; done|]. split; [done|]. simpl.
      by exists [h].
  - case_decide.
    { eexists. split; [by left|]. split; [done|]. simpl. by exists [h]. }
    case_decide.
    { eexists. split; [by left|]. split; [done|]. simpl. by exists [h; a]. }
    destruct (matchup_round_ends s (strip h) (strip a)
                (mkWorld rest
                   (stdout w ++ [round_banner; home_prompt; away_prompt])
                   (db w))) as (w1 & Hround & Hin1 & Hdb1).
    rewrite Hround. cbn [snd].
    destruct (IH (length (stdin w1)) ltac:(rewrite Hin1, Hn; simpl; lia)
                w1 eq_refl) as (w' & Hend & Hdb & Hsuf).
    exists w'. split; [done|]. split; [by rewrite Hdb, Hdb1|].
    rewrite Hin1 in Hsuf. simpl in Hsuf.
    destruct Hsuf as [pre ->]. by exists (h :: a :: pre).
Qed.


(** X15.  The quit word is recognised on either prompt, in any letter
    case and with blanks around it: at the home prompt the loop ends having
    read one line, at the away prompt having read two, and in both cases
    without a round being played (nothing is printed beyond the
    prompts). *)
Theorem quit_word_ends_the_loop s w :
  (forall h rest,
     stdin w = h :: rest -> lower (strip h) = "q"%string ->
     main_loop s w
     = (Ok tt,
        mkWorld rest (stdout w ++ [round_banner; home_prompt]) (db w)))
  /\ (forall h a rest,
        stdin w = h :: a :: rest ->
        lower (strip h) <> "q"%string -> lower (strip a) = "q"%string ->
        main_loop s w
        = (Ok tt,
           mkWorld rest
             (stdout w ++ [round_banner; home_prompt; away_prompt]) (db w))).
Proof.
  split.
  - intros h rest Hin Hq. rewrite main_loop_round, Hin.
    by rewrite decide_True.
  - intros h a rest Hin Hh Ha. rewrite main_loop_round, Hin.
    rewrite decide_False by done. by rewrite decide_True.
Qed.

(** X16.  A round never ends the loop: after two lines of which neither is
    the quit word, whatever the round printed, the loop goes on exactly as
    a loop started on the remaining lines. *)
Theorem loop_goes_on_after_every_round s w h a rest :
  stdin w = h :: a :: rest ->
  lower (strip h) <> "q"%string -> lower (strip a) <> "q"%string ->
  exists w1,
    matchup_round s (strip h) (strip a)
      (mkWorld rest (stdout w ++ [round_banner; home_prompt; away_prompt])
         (db w))
    = (Ok tt, w1)
    /\ stdin w1 = rest /\ db w1 = db w
    /\ main_loop s w = main_loop s w1.
Proof.
  intros Hin Hh Ha.
  destruct (matchup_round_ends s (strip h) (strip a)
              (mkWorld rest
                 (stdout w ++ [round_banner; home_prompt; away_prompt])
                 (db w))) as (w1 & Hround & Hin1 & Hdb1).
  exists w1. split_and!; try done.
  rewrite (main_loop_round s w), Hin.
  rewrite !decide_False by done. by rewrite Hround.
Qed.

End LoopFacts.

(** ** main.py: what a round prints *)

Section RoundOutput.
Import Main.

Variable py_int : string -> result Z.
Variable lstsq : list (list Qc) -> list Qc -> list Qc * Qc.
Variable format_1f : Qc -> string.
Variable str_exn : exn -> string.

#[local] Abbreviation matchup_round :=
  (Main.matchup_round py_int format_1f str_exn).

Lemma home_ids_valid games_df i :
  i ∈ Model.home_ids games_df -> i ∈ valid_team_ids games_df.
Proof.
  intros (g & -> & Hg)%list_elem_of_fmap.
  apply elem_of_valid_team_ids. eauto.
Qed.

Lemma away_ids_valid games_df i :
  i ∈ Model.away_ids games_df -> i ∈ valid_team_ids games_df.
Proof.
  intros (g & -> & Hg)%list_elem_of_fmap.
  apply elem_of_valid_team_ids. eauto.
Qed.

Lemma team_name_of_missing s i :
  i ∉ Database.team_id <$> session_valid_teams_df s ->
  team_name_of s i = Raise IndexError.
Proof.
  intros Hi. unfold team_name_of.
  destruct (filter _ _) as [|t l] eqn:Hf; [done|].
  exfalso. apply Hi.
  assert (t ∈ filter (fun t => Database.team_id t = i)
                (session_valid_teams_df s)) as Ht by (rewrite Hf; left).
  apply list_elem_of_filter in Ht as [<- Ht].
  apply list_elem_of_fmap. eauto.
Qed.

(** The round up to the call of [predict_scores], for two numerals of
    different valid identifiers. *)
Lemma matchup_round_valid s h a hi ai w :
  py_int h = Ok hi -> py_int a = Ok ai -> hi <> ai ->
  hi ∈ session_valid_team_ids s -> ai ∈ session_valid_team_ids s ->
  matchup_round s h a w
  = try_except_as
      (scores ← lift (Model.predict_scores (session_predictor s) hi ai
                        (session_avg_total s));
       _ ← print score_header;
       home_name ← lift (team_name_of s hi);
       _ ← print (score_line home_name (format_1f scores.1));
       away_name ← lift (team_name_of s ai);
       print (score_line away_name (format_1f scores.2)))
      (fun e => print (error_line (str_exn e))) w.
Proof.
  intros Hh Ha Hne Hhi Hai.
  unfold Main.matchup_round, try_except_as, mbind at 1 2, IO_bind at 1 2,
    lift at 1 2.
  rewrite Hh, Ha. rewrite decide_False by done.
  rewrite decide_False by tauto. done.
Qed.

(** X17.  A round for a home team that was at home in some training game
    and an away team that was away in some training game, both with a row
    in the roster, prints the header and one line for each team, home team
    first; the two scores of these lines add up to the average total of
    the training games.  Nothing is read and the database file is left
    alone. *)
Theorem round_prints_scores_that_add_up_to_the_average
    s games_df h a hi ai hn an w :
  Model.fit lstsq Model.__init__ games_df = Ok (session_predictor s) ->
  session_valid_team_ids s = valid_team_ids games_df ->
  py_int h = Ok hi -> py_int a = Ok ai -> hi <> ai ->
  hi ∈ Model.home_ids games_df -> ai ∈ Model.away_ids games_df ->
  team_name_of s hi = Ok hn -> team_name_of s ai = Ok an ->
  exists home_score away_score,
    matchup_round s h a w
    = (Ok tt,
       mkWorld (stdin w)
         (stdout w ++ [score_header; score_line hn (format_1f home_score);
                       score_line an (format_1f away_score)])
         (db w))
    /\ (home_score + away_score = session_avg_total s)%Qc.
Proof.
  intros Hfit Hids Hh Ha Hne Hhi Hai Hhn Han.
  rewrite (matchup_round_valid s h a hi ai) by
    (try done; rewrite Hids;
     first [by apply home_ids_valid | by apply away_ids_valid]).
  destruct (predict_seen lstsq _ _ _ _ _ Hfit Hhi Hai) as (f & _ & Hp).
  unfold try_except_as, mbind, IO_bind, lift, print.
  rewrite predict_scores_split, Hp, Hhn, Han. cbn [stdin stdout db fst snd].
  eexists _, _. split.
  - by rewrite <- !app_assoc.
  - apply halves_sum.
Qed.

(** X18.  A round for two different valid identifiers of which the home
    one was never at home in a training game, or the away one never away,
    prints the error line with the text of [ValueError] and nothing else:
    the roster offers the team, the predictor cannot place it. *)
Theorem round_reports_error_for_team_unseen_in_its_role
    s games_df h a hi ai w :
  Model.fit lstsq Model.__init__ games_df = Ok (session_predictor s) ->
  session_valid_team_ids s = valid_team_ids games_df ->
  py_int h = Ok hi -> py_int a = Ok ai -> hi <> ai ->
  hi ∈ valid_team_ids games_df -> ai ∈ valid_team_ids games_df ->
  hi ∉ Model.home_ids games_df \/ ai ∉ Model.away_ids games_df ->
  matchup_round s h a w
  = (Ok tt,
     mkWorld (stdin w) (stdout w ++ [error_line (str_exn ValueError)])
       (db w)).
Proof.
  intros Hfit Hids Hh Ha Hne Hhi Hai Hunseen.
  rewrite (matchup_round_valid s h a hi ai) by (try done; by rewrite Hids).
  unfold try_except_as, mbind, IO_bind, lift, print.
  rewrite predict_scores_split.
  by rewrite (predict_unseen lstsq _ _ _ _ _ Hfit Hunseen).
Qed.

(** X19.  A round for two teams that the predictor can place, of which the
    home team has no row in the roster, prints the header of the
    prediction and then the error line with the text of [IndexError]; when
    only the away team has no row, the home team's score line is printed
    in between. *)
Theorem round_prints_header_before_missing_team_error
    s games_df h a hi ai w :
  Model.fit lstsq Model.__init__ games_df = Ok (session_predictor s) ->
  session_valid_team_ids s = valid_team_ids games_df ->
  py_int h = Ok hi -> py_int a = Ok ai -> hi <> ai ->
  hi ∈ Model.home_ids games_df -> ai ∈ Model.away_ids games_df ->
  (hi ∉ Database.team_id <$> session_valid_teams_df s ->
   matchup_round s h a w
   = (Ok tt,
      mkWorld (stdin w)
        (stdout w ++ [score_header; error_line (str_exn IndexError)])
        (db w)))
  /\ (forall hn,
        team_name_of s hi = Ok hn ->
        ai ∉ Database.team_id <$> session_valid_teams_df s ->
        exists home_score,
          matchup_round s h a w
          = (Ok tt,
             mkWorld (stdin w)
               (stdout w ++ [score_header;
                             score_line hn (format_1f home_score);
                             error_line (str_exn IndexError)])
               (db w))).
Proof.
  intros Hfit Hids Hh Ha Hne Hhi Hai.
  rewrite (matchup_round_valid s h a hi ai) by
    (try done; rewrite Hids;
     first [by apply home_ids_valid | by apply away_ids_valid]).
  destruct (predict_seen lstsq _ _ _ _ _ Hfit Hhi Hai) as (f & _ & Hp).
  unfold try_except_as, mbind, IO_bind, lift, print.
  rewrite predict_scores_split, Hp. cbn [stdin stdout db fst snd]. split.
  - intros Hmiss%team_name_of_missing. rewrite Hmiss.
    cbn [stdin stdout db]. by rewrite <- !app_assoc.
  - intros hn Hhn Hmiss%team_name_of_missing. rewrite Hhn, Hmiss.
    cbn [stdin stdout db]. eexists. by rewrite <- !app_assoc.
Qed.

End RoundOutput.

(** ** main.py: from the options to the loop *)

Section Startup.
Import Database DataLoader Main.

Variable api : Api.
Variable lstsq : list (list Qc) -> list Qc -> list Qc * Qc.

Lemma print_roster_output (roster : list TeamRow) w :
  foldr (fun t k => _ ← print (roster_line t); k) (mret tt) roster w
  = (Ok tt, mkWorld (stdin w) (stdout w ++ (roster_line <$> roster)) (db w)).
Proof.
  revert w. induction roster as [|t roster IH]; intros w.
  - cbn. rewrite app_nil_r. by destruct w.
  - cbn [foldr fmap list_fmap]. unfold mbind, IO_bind, print at 1.
    unfold mbind, IO_bind in IH. rewrite IH. cbn [stdin stdout db].
    by rewrite <- app_assoc.
Qed.

(** [load_roster], by how [setup_database] ends. *)
Lemma load_roster_run use_real num_games api_key w :
  load_roster api (use_real, num_games, api_key) w
  = match Database.setup_database (db w) use_real num_games api_key api with
    | (s', Ok _) =>
        let dfs := preprocess_data (DataLoader.load_data s') in
        let ids := valid_team_ids dfs.2 in
        let roster := valid_teams_df dfs.1.1 ids in
        (Ok (mkRoster ids roster dfs.2),
         mkWorld (stdin w)
           (stdout w ++ [setup_line; roster_header]
            ++ (roster_line <$> roster))
           (Some s'))
    | (s', Raise e) =>
        (Raise e, mkWorld (stdin w) (stdout w ++ [setup_line]) (Some s'))
    end.
Proof.
  unfold load_roster, mbind, IO_bind, print at 1 2, setup_database,
    Main.load_data.
  cbn [stdin stdout db].
  destruct (Database.setup_database (db w) use_real num_games api_key api)
    as [s' [[]|e]]; cbn [fst snd stdin stdout db]; [|done].
  cbn [DataLoader.load_data preprocess_data].
  pose proof print_roster_output as Hout. unfold mbind, IO_bind in Hout.
  rewrite Hout. cbn [stdin stdout db mret IO_ret].
  by rewrite <- !app_assoc.
Qed.

Lemma StronglySorted_filter {A} (R : relation A) (P : A -> Prop)
    `{!forall x, Decision (P x)} l :
  StronglySorted R l -> StronglySorted R (filter P l).
Proof.
  induction 1 as [|x l Hl IH Hx]; [constructor|].
  rewrite filter_cons. case_decide; [|done].
  constructor; [done|].
  apply Forall_forall. intros y [_ Hy]%list_elem_of_filter.
  by eapply Forall_forall in Hx.
Qed.

(** X20.  When the roster step returns, started on a database file left by
    any earlier runs, it has written the set-up line, the roster header
    and one line for each roster team, in the order of the roster, and the
    roster is in strictly increasing id order: no team is listed twice.
    No line was read. *)
Theorem roster_is_printed_in_id_order options w roster w' :
  (forall s, db w = Some s -> reachable s) ->
  load_roster api options w = (Ok roster, w') ->
  stdout w'
  = stdout w ++ [setup_line; roster_header]
    ++ (roster_line <$> roster_valid_teams_df roster)
  /\ stdin w' = stdin w
  /\ StronglySorted (fun t1 t2 => team_id t1 < team_id t2)
       (roster_valid_teams_df roster).
Proof.
  destruct options as [[use_real num_games] api_key].
  intros Hdb. rewrite load_roster_run.
  destruct (Database.setup_database (db w) use_real num_games api_key api)
    as [s' [[]|e]] eqn:Hsetup; [|done].
  intros [= <- <-]. cbn [stdin stdout db roster_valid_teams_df].
  split_and!; try done.
  assert (reachable s') as Hs' by (eapply setup_database_reachable; eauto).
  destruct (reachable_well_keyed s' Hs') as ([HT _] & _).
  apply StronglySorted_filter. cbn [DataLoader.load_data preprocess_data fst].
  rewrite drop_duplicates_NoDup; [done|].
  eapply NoDup_fmap_1. by apply increasing_rowids_NoDup.
Qed.

Lemma fictional_games_df (s : Store) :
  exists games,
    (preprocess_data (DataLoader.load_data (populate_tables s))).2 <> []
    /\ Games (populate_tables s) = Games s ++ games
    /\ Forall2 (fun v r => home_team_id r = Some v.1.1.1.2
                           /\ away_team_id r = Some v.1.1.2)
         seed_games games.
Proof.
  destruct (populate_tables_rows s)
    as (teams & players & games & _ & _ & HG & _ & _ & Hg & _).
  exists games. split_and!; [|done|].
  - cbn [DataLoader.load_data preprocess_data snd]. rewrite HG.
    intros Hnil%fmap_nil_inv.
    apply Forall2_length in Hg.
    destruct games as [|g games]; [done|].
    assert (g ∈ drop_duplicates (Games s ++ g :: games)) as Hin.
    { apply elem_of_drop_duplicates, elem_of_app. right. left. }
    rewrite Hnil in Hin. by apply elem_of_nil in Hin.
  - eapply Forall2_impl; [exact Hg|]. simpl. tauto.
Qed.

(** [prepare] in fictional mode. *)
Lemma prepare_fictional num_games api_key w :
  exists session w',
    prepare api lstsq (false, num_games, api_key) w = (Ok session, w')
    /\ stdin w' = stdin w
    /\ db w' = Some (populate_tables (create_tables (db w)))
    /\ (exists games_df,
          Model.fit lstsq Model.__init__ games_df
          = Ok (session_predictor session)
          /\ session_valid_team_ids session = valid_team_ids games_df)
    /\ (forall i, 1 <= i <= 4 -> i ∈ session_valid_team_ids session).
Proof.
  unfold prepare, mbind, IO_bind. rewrite load_roster_run.
  unfold Database.setup_database. cbv zeta.
  set (s' := populate_tables (create_tables (db w))).
  destruct (fictional_games_df (create_tables (db w)))
    as (games & Hne & HG & Hseed).
  fold s' in Hne, HG.
  destruct (fit_total lstsq Model.__init__ _ Hne) as [p Hp].
  unfold lift. cbn [roster_games_df]. rewrite Hp.
  eexists _, _. split; [done|]. cbn [stdin db session_valid_team_ids
    session_predictor roster_valid_team_ids].
  split_and!; try done.
  - eauto.
  - intros i Hi. apply elem_of_valid_team_ids.
    cbn [DataLoader.load_data preprocess_data snd].
    assert (exists r, r ∈ games
              /\ (home_team_id r = Some i \/ away_team_id r = Some i))
      as (r & Hr & Hri).
    { unfold seed_games in Hseed.
      repeat match goal with
             | H : Forall2 _ (_ :: _) _ |- _ =>
                 apply Forall2_cons_inv_l in H as (? & ? & [? ?] & ? & ?);
                   subst
             end.
      assert (i = 1 \/ i = 2 \/ i = 3 \/ i = 4) as [-> | [-> | [-> | ->]]]
        by lia;
        eexists; (split; [|eauto]); repeat first [left; done | right]. }
    exists (fillna_game r). split.
    + apply list_elem_of_fmap. exists r. split; [done|].
      apply elem_of_drop_duplicates. rewrite HG. apply elem_of_app. by right.
    + simpl. destruct Hri as [-> | ->]; auto.
Qed.


Lemma valid_teams_df_no_games teams :
  valid_teams_df teams (valid_team_ids []) = [].
Proof.
  unfold valid_teams_df. induction teams as [|t teams IH]; [done|].
  rewrite filter_cons, decide_False; [done|].
  intros (g & Hg & _)%elem_of_valid_team_ids. by apply elem_of_nil in Hg.
Qed.

(** X22.  Real mode with no scored game among the fetched ones (a game
    count of 0 or less, a provider without games, or only games still to
    be played) does not reach the loop: the import commits, Teams holds
    the fetched teams and Games is empty, the roster header is printed
    with no team under it, and [fit] ends the program with [ValueError]. *)
Theorem real_mode_without_scored_games_fails_at_fit
    num_games api_key w teams games :
  fetch_teams_from_api api_key api = Ok teams ->
  fetch_games_from_api num_games api_key api = Ok games ->
  filter (fun g => has_scores g = true) games = [] ->
  exists s',
    prepare api lstsq (true, num_games, api_key) w
    = (Raise ValueError,
       mkWorld (stdin w) (stdout w ++ [setup_line; roster_header]) (Some s'))
    /\ populate_tables_from_api (create_tables (db w)) num_games api_key api
       = Ok s'
    /\ Games s' = [].
Proof.
  intros Ht Hg Hnone.
  destruct (populate_tables_from_api (create_tables (db w)) num_games
              api_key api) as [s'|e] eqn:Himport.
  2:{ unfold populate_tables_from_api in Himport.
      rewrite Ht, Hg in Himport. done. }
  pose proof Himport
    as (t' & g' & _ & Hg' & _ & _ & _ & Hrows)%api_import_tables.
  rewrite Hg in Hg'. injection Hg' as <-. rewrite Hnone in Hrows.
  apply Forall2_nil_inv_l in Hrows.
  exists s'. split_and!; try done.
  unfold prepare, mbind, IO_bind. rewrite load_roster_run.
  unfold Database.setup_database. cbv zeta. rewrite Himport.
  cbn [DataLoader.load_data preprocess_data fst snd]. rewrite Hrows.
  unfold lift. cbn [roster_games_df].
  change (fillna_game <$> drop_duplicates []) with (@nil GameRec).
  assert (Model.fit lstsq Model.__init__ [] = Raise ValueError) as Hfit
    by done.
  rewrite Hfit, valid_teams_df_no_games. cbn [fmap list_fmap].
  by rewrite app_nil_r.
Qed.

Variable py_int : string -> result Z.

(** [read_options] when the first line is not the word for real data. *)
Lemma read_options_fictional w choice rest :
  stdin w = choice :: rest -> lower (strip choice) <> "real"%string ->
  exists w',
    read_options py_int w = (Ok (false, 100, None), w')
    /\ stdin w' = rest /\ db w' = db w.
Proof.
  intros Hin Hchoice.
  unfold read_options, mbind, IO_bind, print, input. cbn [stdin stdout db].
  rewrite Hin. cbn [stdin stdout db].
  rewrite bool_decide_eq_false_2 by done. eexists. split; [done|]. done.
Qed.

(** X23.  Reading the options ends with the options or, when the input
    runs out, with [EOFError], and with nothing else: what [int] raises on
    the game count never leaves it.  At most three lines are read, from
    the front, and the database file is not touched.  Fictional mode
    always carries the game count 100 and no credential, and a credential
    is never the empty string. *)
Theorem read_options_ends_with_options_or_EOFError w :
  exists w',
    ((exists use_real num_games api_key,
        read_options py_int w = (Ok (use_real, num_games, api_key), w')
        /\ (use_real = false -> num_games = 100 /\ api_key = None)
        /\ api_key <> Some ""%string)
     \/ (read_options py_int w = (Raise EOFError, w') /\ stdin w' = []))
    /\ db w' = db w
    /\ stdin w' `suffix_of` stdin w
    /\ (length (stdin w) <= length (stdin w') + 3)%nat.
Proof.
  unfold read_options, mbind, IO_bind, print, input, try_except, lift, mret,
    IO_ret.
  cbn [stdin stdout db].
  destruct (stdin w) as [|choice rest] eqn:Hin; cbn [stdin stdout db].
  { eexists. split; [right; done|]. cbn. split_and!; done || lia. }
  destruct (bool_decide (lower (strip choice) = "real"%string)).
  2:{ eexists. split; [left; eexists _, _, _; done|]. cbn.
      split_and!; [done|by exists [choice]|lia]. }
  destruct rest as [|answer rest]; cbn [stdin stdout db].
  { eexists. split; [right; done|]. cbn.
    split_and!; [done|by exists [choice]|lia]. }
  destruct (py_int (strip answer)) as [n|e]; cbn [stdin stdout db].
  - destruct rest as [|key rest]; cbn [stdin stdout db].
    { eexists. split; [right; done|]. cbn.
      split_and!; [done|by exists [choice; answer]|lia]. }
    eexists. split.
    + left. eexists _, _, _. split; [done|]. split; [done|].
      case_decide; [done|]. by intros [= ?].
    + cbn. split_and!; [done|by exists [choice; answer; key]|lia].
  - destruct rest as [|key rest]; cbn [stdin stdout db].
    { eexists. split; [right; done|]. cbn.
      split_and!; [done|by exists [choice; answer]|lia]. }
    eexists. split.
    + left. eexists _, _, _. split; [done|]. split; [done|].
      case_decide; [done|]. by intros [= ?].
    + cbn. split_and!; [done|by exists [choice; answer; key]|lia].
Qed.

End Startup.

(** ** main.py: the whole run *)

Section WholeRun.
Import Database Main.

Variable py_int : string -> result Z.
Variable api : Api.
Variable lstsq : list (list Qc) -> list Qc -> list Qc * Qc.
Variable format_1f : Qc -> string.
Variable str_exn : exn -> string.

#[local] Abbreviation main := (Main.main py_int api lstsq format_1f str_exn).


End WholeRun.

(** ** The further properties at sample inputs *)

Section Instances.
Import Database DataLoader Model Main.

Lemma predict_returns_iff_seen_witness :
  exists p,
    fit Samples.constant_solver __init__ Samples.one_game = Ok p
    /\ ((exists diff, predict p 1 2 = Ok diff)
        <-> 1 ∈ home_ids Samples.one_game /\ 2 ∈ away_ids Samples.one_game)
    /\ (~ (1 ∈ home_ids Samples.one_game /\ 2 ∈ away_ids Samples.one_game) ->
        predict p 1 2 = Raise ValueError).
Proof.
  destruct (fit Samples.constant_solver __init__ Samples.one_game)
    as [p|e] eqn:Hfit.
  - exists p. split; [reflexivity|].
    exact (predict_returns_iff_seen Samples.constant_solver __init__
             Samples.one_game p 1 2 Hfit).
  - vm_compute in Hfit. discriminate Hfit.
Defined.

Lemma predict_adds_two_coefficients_witness :
  exists p f,
    fit Samples.constant_solver __init__ Samples.one_game = Ok p
    /\ model p = Some f
    /\ predict p 1 2
       = Ok (coefficient (columns_of Samples.one_game) (coef_ f)
               (home_column (pretty 1%Z))
             + coefficient (columns_of Samples.one_game) (coef_ f)
                 (away_column (pretty 2%Z))
             + intercept_ f)%Qc.
Proof.
  destruct (fit Samples.constant_solver __init__ Samples.one_game)
    as [p|e] eqn:Hfit.
  - destruct (predict_adds_two_coefficients Samples.constant_solver __init__
                Samples.one_game p 1 2 Hfit) as (f & Hf & Hp).
    + vm_compute. left.
    + vm_compute. left.
    + exists p, f. split; [reflexivity|]. split; [exact Hf | exact Hp].
  - vm_compute in Hfit. discriminate Hfit.
Defined.

Lemma predict_scores_splits_total_witness :
  exists p diff home away,
    fit Samples.constant_solver __init__ Samples.one_game = Ok p
    /\ predict p 1 2 = Ok diff
    /\ predict_scores p 1 2 (Qc_of_Z 200) = Ok (home, away)
    /\ (home + away = Qc_of_Z 200)%Qc
    /\ (home - away = diff)%Qc.
Proof.
  destruct (fit Samples.constant_solver __init__ Samples.one_game)
    as [p|e] eqn:Hfit.
  - destruct (predict_scores_splits_total Samples.constant_solver __init__
                Samples.one_game p 1 2 (Qc_of_Z 200) Hfit)
      as (diff & home & away & H).
    + vm_compute. left.
    + vm_compute. left.
    + exists p, diff, home, away. split; [reflexivity | exact H].
  - vm_compute in Hfit. discriminate Hfit.
Defined.

Lemma fit_columns_depend_on_identifier_sets_witness :
  columns_of (Samples.one_game ++ Samples.one_game)
  = columns_of Samples.one_game
  /\ NoDup (columns_of (Samples.one_game ++ Samples.one_game)).
Proof.
  apply (fit_columns_depend_on_identifier_sets
           (Samples.one_game ++ Samples.one_game) Samples.one_game).
  - intros x. cbn. rewrite !elem_of_cons. tauto.
  - intros x. cbn. rewrite !elem_of_cons. tauto.
Defined.

Lemma reachable_primary_keys_unique_witness :
  well_keyed (populate_tables (create_tables None))
  /\ NoDup (team_id <$> Teams (populate_tables (create_tables None)))
  /\ NoDup (player_id <$> Players (populate_tables (create_tables None)))
  /\ NoDup (game_id <$> Games (populate_tables (create_tables None))).
Proof.
  apply (reachable_primary_keys_unique (populate_tables (create_tables None))).
  apply reachable_seed, reachable_create.
Defined.

Lemma fetch_returns_all_games_of_short_provider_witness :
  fetch_games_from_api_log 100 None Samples.provider
  = (Ok (pages_data Samples.provider (headers None) 1 2),
     Z.of_nat <$> seq 1 3).
Proof.
  apply (fetch_returns_all_games_of_short_provider Samples.provider None
           100 2).
  - intros [|[|j]] Hj; [| |lia]; eexists; (split; [reflexivity|done]).
  - vm_compute. reflexivity.
  - reflexivity.
Defined.

Lemma fetch_returns_first_games_of_long_provider_witness :
  fetch_games_from_api_log 3 None Samples.provider
  = (Ok (take (Z.to_nat 3)
           (pages_data Samples.provider (headers None) 1 2)),
     Z.of_nat <$> seq 1 2).
Proof.
  apply (fetch_returns_first_games_of_long_provider Samples.provider None
           3 1).
  - intros [|[|j]] Hj; [| |lia]; eexists; (split; [reflexivity|done]).
  - vm_compute. reflexivity.
  - vm_compute. discriminate.
Defined.

Lemma failed_request_commits_nothing_witness :
  fetch_games_from_api_log 100 None Samples.provider_failing
  = (Raise HTTPError, Z.of_nat <$> seq 1 2)
  /\ Database.setup_database None true 100 None Samples.provider_failing
     = (create_tables None, Raise HTTPError).
Proof.
  apply (proj2 (failed_request_commits_nothing Samples.provider_failing None
                  100 None 1 HTTPError) [Samples.hawks; Samples.celtics]).
  - reflexivity.
  - intros [|j] Hj; [|lia]. eexists. split; [reflexivity|done].
  - vm_compute. reflexivity.
  - reflexivity.
Defined.

Lemma api_import_keeps_first_team_of_each_id_witness :
  exists s',
    populate_tables_from_api empty_store 3 None Samples.provider = Ok s'
    /\ (team_row Samples.hawks ∈ Teams s'
        <-> exists l1 t l2,
              [Samples.hawks; Samples.celtics] = l1 ++ t :: l2
              /\ team_row Samples.hawks = team_row t
              /\ (api_id t ∉ api_id <$> l1)).
Proof.
  eexists. split; [reflexivity|].
  apply (api_import_keeps_first_team_of_each_id empty_store 3 None
           Samples.provider); reflexivity.
Defined.

Lemma api_import_forgets_former_rows_witness :
  exists sa' sb',
    populate_tables_from_api empty_store 3 None Samples.provider = Ok sa'
    /\ populate_tables_from_api (populate_tables empty_store) 3 None
         Samples.provider = Ok sb'
    /\ Teams sb' = Teams sa'
    /\ Forall2 same_game (Games sa') (Games sb')
    /\ Players sa' = Players empty_store
    /\ Players sb' = Players (populate_tables empty_store).
Proof.
  eexists.
  destruct (api_import_forgets_former_rows empty_store
              (populate_tables empty_store) 3 None Samples.provider _
              eq_refl) as (sb' & H).
  exists sb'. split; [reflexivity | exact H].
Defined.

Lemma preprocess_data_keeps_reachable_rows_witness :
  (preprocess_data (DataLoader.load_data (populate_tables (create_tables None)))).1.1
  = Teams (populate_tables (create_tables None)).
Proof.
  apply (preprocess_data_keeps_reachable_rows
           (populate_tables (create_tables None))).
  apply reachable_seed, reachable_create.
Defined.

Lemma quit_word_ends_the_loop_witness :
  main_loop int_of_numeral Samples.whole_part Samples.exn_text
    (Samples.one_game_session [] __init__)
    (mkWorld [" Q "]%string [] None)
  = (Ok tt, mkWorld [] ([] ++ [round_banner; home_prompt]) None).
Proof.
  apply (proj1 (quit_word_ends_the_loop int_of_numeral Samples.whole_part
                  Samples.exn_text (Samples.one_game_session [] __init__)
                  (mkWorld [" Q "]%string [] None)) " Q "%string []).
  - reflexivity.
  - vm_compute. reflexivity.
Defined.

Lemma loop_goes_on_after_every_round_witness :
  exists w1,
    matchup_round int_of_numeral Samples.whole_part Samples.exn_text
      (Samples.one_game_session [] __init__) (strip "7") (strip "7")
      (mkWorld ["q"]%string
         ([] ++ [round_banner; home_prompt; away_prompt]) None)
    = (Ok tt, w1)
    /\ stdin w1 = ["q"]%string /\ db w1 = None
    /\ main_loop int_of_numeral Samples.whole_part Samples.exn_text
         (Samples.one_game_session [] __init__)
         (mkWorld ["7"; "7"; "q"]%string [] None)
       = main_loop int_of_numeral Samples.whole_part Samples.exn_text
           (Samples.one_game_session [] __init__) w1.
Proof.
  apply (loop_goes_on_after_every_round int_of_numeral Samples.whole_part
           Samples.exn_text (Samples.one_game_session [] __init__)
           (mkWorld ["7"; "7"; "q"]%string [] None) "7" "7" ["q"]%string).
  - reflexivity.
  - vm_compute. discriminate.
  - vm_compute. discriminate.
Defined.

Lemma round_prints_scores_that_add_up_to_the_average_witness :
  exists p home_score away_score,
    fit Samples.constant_solver __init__ Samples.one_game = Ok p
    /\ matchup_round int_of_numeral Samples.whole_part Samples.exn_text
         (Samples.one_game_session Samples.one_game_roster p) "1" "2"
         (mkWorld [] [] None)
       = (Ok tt,
          mkWorld []
            ([] ++ [score_header;
                    score_line "Dragons" (Samples.whole_part home_score);
                    score_line "Wolves" (Samples.whole_part away_score)])
            None)
    /\ (home_score + away_score = Qc_of_Z 200)%Qc.
Proof.
  destruct (fit Samples.constant_solver __init__ Samples.one_game)
    as [p|e] eqn:Hfit.
  - destruct (round_prints_scores_that_add_up_to_the_average
                int_of_numeral Samples.constant_solver Samples.whole_part
                Samples.exn_text
                (Samples.one_game_session Samples.one_game_roster p)
                Samples.one_game "1" "2" 1 2 "Dragons" "Wolves"
                (mkWorld [] [] None))
      as (home_score & away_score & Hround & Hsum).
    + exact Hfit.
    + reflexivity.
    + reflexivity.
    + reflexivity.
    + discriminate.
    + vm_compute. left.
    + vm_compute. left.
    + reflexivity.
    + reflexivity.
    + exists p, home_score, away_score.
      split; [reflexivity|]. split; [exact Hround | exact Hsum].
  - vm_compute in Hfit. discriminate Hfit.
Defined.

Lemma round_reports_error_for_team_unseen_in_its_role_witness :
  exists p,
    fit Samples.constant_solver __init__ Samples.one_game = Ok p
    /\ matchup_round int_of_numeral Samples.whole_part Samples.exn_text
         (Samples.one_game_session Samples.one_game_roster p) "2" "1"
         (mkWorld [] [] None)
       = (Ok tt,
          mkWorld [] ([] ++ [error_line (Samples.exn_text ValueError)]) None).
Proof.
  destruct (fit Samples.constant_solver __init__ Samples.one_game)
    as [p|e] eqn:Hfit.
  - exists p. split; [reflexivity|].
    apply (round_reports_error_for_team_unseen_in_its_role
             int_of_numeral Samples.constant_solver Samples.whole_part
             Samples.exn_text
             (Samples.one_game_session Samples.one_game_roster p)
             Samples.one_game "2" "1" 2 1 (mkWorld [] [] None)).
    + exact Hfit.
    + reflexivity.
    + reflexivity.
    + reflexivity.
    + discriminate.
    + apply elem_of_valid_team_ids. eexists. split; [left|]. by right.
    + apply elem_of_valid_team_ids. eexists. split; [left|]. by left.
    + left. cbn. rewrite list_elem_of_singleton. discriminate.
  - vm_compute in Hfit. discriminate Hfit.
Defined.

Lemma round_prints_header_before_missing_team_error_witness :
  exists p,
    fit Samples.constant_solver __init__ Samples.one_game = Ok p
    /\ matchup_round int_of_numeral Samples.whole_part Samples.exn_text
         (Samples.one_game_session [] p) "1" "2" (mkWorld [] [] None)
       = (Ok tt,
          mkWorld []
            ([] ++ [score_header; error_line (Samples.exn_text IndexError)])
            None).
Proof.
  destruct (fit Samples.constant_solver __init__ Samples.one_game)
    as [p|e] eqn:Hfit.
  - exists p. split; [reflexivity|].
    apply (round_prints_header_before_missing_team_error
             int_of_numeral Samples.constant_solver Samples.whole_part
             Samples.exn_text (Samples.one_game_session [] p)
             Samples.one_game "1" "2" 1 2 (mkWorld [] [] None)).
    + exact Hfit.
    + reflexivity.
    + reflexivity.
    + reflexivity.
    + discriminate.
    + vm_compute. left.
    + vm_compute. left.
    + apply not_elem_of_nil.
  - vm_compute in Hfit. discriminate Hfit.
Defined.

Lemma roster_is_printed_in_id_order_witness :
  exists roster w',
    load_roster Samples.provider (false, 100, None) (mkWorld [] [] None)
    = (Ok roster, w')
    /\ stdout w'
       = [] ++ [setup_line; roster_header]
         ++ (roster_line <$> roster_valid_teams_df roster)
    /\ stdin w' = []
    /\ StronglySorted (fun t1 t2 => team_id t1 < team_id t2)
         (roster_valid_teams_df roster).
Proof.
  destruct (load_roster Samples.provider (false, 100, None)
              (mkWorld [] [] None)) as [[roster|e] w'] eqn:Hrun.
  - exists roster, w'. split; [reflexivity|].
    apply (roster_is_printed_in_id_order Samples.provider (false, 100, None)
             (mkWorld [] [] None) roster w').
    + intros s Hs. discriminate Hs.
    + exact Hrun.
  - vm_compute in Hrun. discriminate Hrun.
Defined.

Lemma real_mode_without_scored_games_fails_at_fit_witness :
  exists s',
    prepare Samples.provider Samples.constant_solver (true, 0, None)
      (mkWorld [] [] None)
    = (Raise ValueError,
       mkWorld [] ([] ++ [setup_line; roster_header]) (Some s'))
    /\ populate_tables_from_api (create_tables None) 0 None Samples.provider
       = Ok s'
    /\ Games s' = [].
Proof.
  apply (real_mode_without_scored_games_fails_at_fit Samples.provider
           Samples.constant_solver 0 None (mkWorld [] [] None)
           [Samples.hawks; Samples.celtics] []); reflexivity.
Defined.



End Instances.
